(** * nonebot-adapter-spigot: the WebSocket adapter

    A shallow embedding of [Adapter._handle_ws], [Adapter.get_event_model]
    and [Adapter.json_to_event], as written in
    [src/nonebot/adapter/spigot/adapter.py] and in
    [src/nonebot/adapters/spigot/adapter.py], with the properties of the
    connection life cycle and of the event decoder.

    Python [str] values are [string]s holding their UTF-8 bytes.  The
    adapter's dictionaries are [gmap]s.  Code that can raise returns a
    [res]; the coroutine [_handle_ws] is cut at its [await]s into atomic
    blocks, so that several connections can be interleaved as the
    single-threaded event loop does. *)

From Stdlib Require Import ZArith NArith Ascii String List Bool Lia.
From stdpp Require Import base option strings gmap.
Import ListNotations.

Local Open Scope string_scope.
Local Open Scope list_scope.

(** ** Exceptions

    Only subclasses of [Exception] are raised by the synchronous code
    modelled here.  Cancellation of the coroutine ([asyncio.CancelledError],
    which is not an [Exception] in the Python 3.9 that [setup.py] names)
    is a separate answer to an [await], see [answer]. *)

Inductive exc : Type :=
| WebSocketClosed
| AttributeError
| JSONDecodeError
| ValueError
| RecursionError
| UnicodeDecodeError
| ValidationError
| OtherError (what : string).

Inductive res (A : Type) : Type :=
| Ret (a : A)
| Raise (e : exc).

Arguments Ret {A} a.
Arguments Raise {A} e.

Definition res_bind {A B : Type} (r : res A) (k : A -> res B) : res B :=
  match r with
  | Ret a => k a
  | Raise e => Raise e
  end.

Definition returned {A : Type} (r : res A) : Prop :=
  match r with
  | Ret _ => True
  | Raise _ => False
  end.

(** ** The interpreter

    What the code leaves to the Python that runs it.
    [int_max_str_digits] is [sys.get_int_max_str_digits()], the longest
    decimal text that [int] converts, 0 when the limit is switched off or
    the interpreter has none (the limit came with Python 3.9.14).
    [recursion_room] is the number of nested calls the recursion limit
    still allows where [_handle_ws] calls [json.loads], in nested arrays
    and objects: the decoder enters one call for each; the call chain from
    the event loop to the handler being the same for every frame, it is
    one number.  [unicode_name] is the table of character names of
    [unicodedata], as the [unicode_escape] codec looks a name up. *)

Record interpreter : Type := {
  int_max_str_digits : nat;
  recursion_room : nat;
  unicode_name : string -> option N
}.

(** ** Text helpers: hexadecimal digits and UTF-8 *)

Definition ascii_in (lo hi : N) (c : ascii) : bool :=
  ((lo <=? N_of_ascii c) && (N_of_ascii c <=? hi))%N.

Definition is_digit (c : ascii) : bool := ascii_in 48 57 c.

Definition hex_value (c : ascii) : option N :=
  let n := N_of_ascii c in
  if ascii_in 48 57 c then Some (n - 48)%N
  else if ascii_in 97 102 c then Some (n - 87)%N
  else if ascii_in 65 70 c then Some (n - 55)%N
  else None.

Fixpoint hex_digits (cs : list ascii) (acc : N) : option N :=
  match cs with
  | [] => Some acc
  | c :: cs' =>
      match hex_value c with
      | Some d => hex_digits cs' (acc * 16 + d)%N
      | None => None
      end
  end.

Definition byte_of (n : N) : ascii := ascii_of_N (n mod 256).

(** The UTF-8 bytes of a code point; a lone surrogate gets the three
    bytes of its value, as Python's [surrogatepass] writes it. *)
Definition utf8 (cp : N) : list ascii :=
  if (cp <? 128)%N then [byte_of cp]
  else if (cp <? 2048)%N then
    [byte_of (192 + cp / 64); byte_of (128 + cp mod 64)]
  else if (cp <? 65536)%N then
    [byte_of (224 + cp / 4096); byte_of (128 + (cp / 64) mod 64);
     byte_of (128 + cp mod 64)]
  else
    [byte_of (240 + cp / 262144); byte_of (128 + (cp / 4096) mod 64);
     byte_of (128 + (cp / 64) mod 64); byte_of (128 + cp mod 64)].

Definition string_of_chars (cs : list ascii) : string :=
  fold_right String EmptyString cs.

(** ** JSON values and [json.loads] *)

#[local] Set Warnings "-register-all".

Inductive json : Type :=
| JNull
| JBool (b : bool)
| JNum (lexeme : string)
| JStr (s : string)
| JArr (items : list json)
| JObj (members : list (string * json)).

(** [isinstance(json_data, dict)] *)
Definition is_dict (j : json) : bool :=
  match j with
  | JObj _ => true
  | _ => false
  end.

Definition is_ws (c : ascii) : bool :=
  let n := N_of_ascii c in
  ((n =? 32) || (n =? 9) || (n =? 10) || (n =? 13))%N.

Fixpoint skip_ws (s : string) : string :=
  match s with
  | String c s' => if is_ws c then skip_ws s' else s
  | EmptyString => s
  end.

(** A piece of a string literal: a byte copied from the text, or the
    16-bit unit of a [\uXXXX] escape. *)
Inductive piece : Type :=
| PByte (c : ascii)
| PUnit (u : N).

Definition simple_escape (c : ascii) : option ascii :=
  let n := N_of_ascii c in
  if (n =? 34)%N then Some c
  else if (n =? 92)%N then Some c
  else if (n =? 47)%N then Some c
  else if (n =? 98)%N then Some (ascii_of_N 8)
  else if (n =? 102)%N then Some (ascii_of_N 12)
  else if (n =? 110)%N then Some (ascii_of_N 10)
  else if (n =? 114)%N then Some (ascii_of_N 13)
  else if (n =? 116)%N then Some (ascii_of_N 9)
  else None.

(** The text after an opening quote: the pieces up to the closing quote
    and the rest of the text.  A control character is refused
    ([strict=True]). *)
Fixpoint scan_string (s : string) : option (list piece * string) :=
  match s with
  | EmptyString => None
  | String c s' =>
      if (N_of_ascii c =? 34)%N then Some ([], s')
      else if (N_of_ascii c <? 32)%N then None
      else if (N_of_ascii c =? 92)%N then
        match s' with
        | String e s'' =>
            if (N_of_ascii e =? 117)%N then
              match s'' with
              | String h1 (String h2 (String h3 (String h4 s4))) =>
                  match hex_digits [h1; h2; h3; h4] 0 with
                  | Some u =>
                      match scan_string s4 with
                      | Some (ps, r) => Some (PUnit u :: ps, r)
                      | None => None
                      end
                  | None => None
                  end
              | _ => None
              end
            else
              match simple_escape e with
              | Some b =>
                  match scan_string s'' with
                  | Some (ps, r) => Some (PByte b :: ps, r)
                  | None => None
                  end
              | None => None
              end
        | EmptyString => None
        end
      else
        match scan_string s' with
        | Some (ps, r) => Some (PByte c :: ps, r)
        | None => None
        end
  end.

Definition is_high (u : N) : bool := ((55296 <=? u) && (u <=? 56319))%N.
Definition is_low (u : N) : bool := ((56320 <=? u) && (u <=? 57343))%N.

(** A high surrogate followed by a low one is one code point. *)
Fixpoint join_pieces (ps : list piece) : list ascii :=
  match ps with
  | [] => []
  | PByte c :: ps' => c :: join_pieces ps'
  | PUnit u :: ps' =>
      match ps' with
      | PUnit v :: ps'' =>
          if is_high u && is_low v
          then utf8 (65536 + (u - 55296) * 1024 + (v - 56320))%N
                 ++ join_pieces ps''
          else utf8 u ++ join_pieces ps'
      | _ => utf8 u ++ join_pieces ps'
      end
  end.

Definition scan_literal (s : string) : option (string * string) :=
  match scan_string s with
  | Some (ps, r) => Some (string_of_chars (join_pieces ps), r)
  | None => None
  end.

Fixpoint span_digits (s : string) : list ascii * string :=
  match s with
  | String c s' =>
      if is_digit c
      then let '(ds, r) := span_digits s' in (c :: ds, r)
      else ([], s)
  | EmptyString => ([], s)
  end.

(** The integer part of a number, without its sign: a lone zero, or a
    digit from 1 to 9 and the digits after it. *)
Definition scan_int (s : string) : option (list ascii * string) :=
  match s with
  | String c s' =>
      if (N_of_ascii c =? 48)%N then Some ([c], s')
      else if is_digit c
      then let '(ds, r) := span_digits s' in Some (c :: ds, r)
      else None
  | EmptyString => None
  end.

Definition scan_frac (s : string) : list ascii * string :=
  match s with
  | String c s' =>
      if (N_of_ascii c =? 46)%N then
        match span_digits s' with
        | ([], _) => ([], s)
        | (ds, r) => (c :: ds, r)
        end
      else ([], s)
  | EmptyString => ([], s)
  end.

Definition scan_exp (s : string) : list ascii * string :=
  match s with
  | String c s' =>
      if ((N_of_ascii c =? 101) || (N_of_ascii c =? 69))%N then
        match s' with
        | String g s'' =>
            if ((N_of_ascii g =? 43) || (N_of_ascii g =? 45))%N then
              match span_digits s'' with
              | ([], _) => ([], s)
              | (ds, r) => (c :: g :: ds, r)
              end
            else
              match span_digits s' with
              | ([], _) => ([], s)
              | (ds, r) => (c :: ds, r)
              end
        | EmptyString => ([], s)
        end
      else ([], s)
  | EmptyString => ([], s)
  end.

(** The text of a number and, when it has neither fraction nor exponent,
    the count of its digits: such a number is converted by [int], the
    others by [float]. *)
Definition scan_number (s : string) : option (string * option nat * string) :=
  let '(sign, s1) :=
    match s with
    | String c s' => if (N_of_ascii c =? 45)%N then ([c], s') else ([], s)
    | EmptyString => ([], s)
    end in
  match scan_int s1 with
  | Some (ds, s2) =>
      let '(fr, s3) := scan_frac s2 in
      let '(ex, s4) := scan_exp s3 in
      Some (string_of_chars (sign ++ ds ++ fr ++ ex),
            match fr, ex with
            | [], [] => Some (length ds)
            | _, _ => None
            end,
            s4)
  | None => None
  end.

(** [int] refuses a decimal text of more than [max_digits] digits, the
    sign not counted, when the limit is on; the interpreter looks at the
    limit only for texts of more than 640 digits, the least limit it lets
    one set. *)
Definition too_many_digits (max_digits : nat) (int_digits : option nat)
  : bool :=
  match int_digits with
  | Some digits =>
      (640 <? digits)%nat && (0 <? max_digits)%nat
      && (max_digits <? digits)%nat
  | None => false
  end.

(** [strip_prefix p s]: the rest of [s] after [p]. *)
Fixpoint strip_prefix (p s : string) : option string :=
  match p, s with
  | EmptyString, _ => Some s
  | String a p', String b s' =>
      if Ascii.eqb a b then strip_prefix p' s' else None
  | String _ _, EmptyString => None
  end.

Definition scan_constant (s : string) : option (json * string) :=
  match strip_prefix "null" s with
  | Some r => Some (JNull, r)
  | None =>
  match strip_prefix "true" s with
  | Some r => Some (JBool true, r)
  | None =>
  match strip_prefix "false" s with
  | Some r => Some (JBool false, r)
  | None =>
  match strip_prefix "NaN" s with
  | Some r => Some (JNum "NaN", r)
  | None =>
  match strip_prefix "Infinity" s with
  | Some r => Some (JNum "Infinity", r)
  | None =>
  match strip_prefix "-Infinity" s with
  | Some r => Some (JNum "-Infinity", r)
  | None => None
  end end end end end end.

(** The decoder proper, reading the text from left to right: the first
    thing it cannot accept decides the exception.  A text that is no JSON
    is a [JSONDecodeError]; an integer of too many digits is the
    [ValueError] of [int]; an array or an object opened when no [room] is
    left is a [RecursionError].  [fuel] bounds the number of nested calls
    of the model; every second call consumes a character, so [json_loads]
    gives it twice the length of the text, which is enough
    ([json_loads_fuel]). *)
Fixpoint scan_value (max_digits fuel room : nat) (s : string)
  : res (json * string) :=
  match fuel with
  | O => Raise JSONDecodeError
  | S fuel' =>
      match s with
      | EmptyString => Raise JSONDecodeError
      | String c s' =>
          if (N_of_ascii c =? 34)%N then
            match scan_literal s' with
            | Some (str, r) => Ret (JStr str, r)
            | None => Raise JSONDecodeError
            end
          else if (N_of_ascii c =? 91)%N then
            match room with
            | O => Raise RecursionError
            | S room' =>
                match skip_ws s' with
                | String d r =>
                    if (N_of_ascii d =? 93)%N then Ret (JArr [], r)
                    else scan_items max_digits fuel' room' (skip_ws s') []
                | EmptyString => Raise JSONDecodeError
                end
            end
          else if (N_of_ascii c =? 123)%N then
            match room with
            | O => Raise RecursionError
            | S room' =>
                match skip_ws s' with
                | String d r =>
                    if (N_of_ascii d =? 125)%N then Ret (JObj [], r)
                    else scan_members max_digits fuel' room' (skip_ws s') []
                | EmptyString => Raise JSONDecodeError
                end
            end
          else
            match scan_constant s with
            | Some v => Ret v
            | None =>
                match scan_number s with
                | Some (lexeme, int_digits, r) =>
                    if too_many_digits max_digits int_digits
                    then Raise ValueError
                    else Ret (JNum lexeme, r)
                | None => Raise JSONDecodeError
                end
            end
      end
  end
with scan_items (max_digits fuel room : nat) (s : string) (acc : list json)
  : res (json * string) :=
  match fuel with
  | O => Raise JSONDecodeError
  | S fuel' =>
      match scan_value max_digits fuel' room s with
      | Ret (v, r) =>
          match skip_ws r with
          | String d r' =>
              if (N_of_ascii d =? 44)%N
              then scan_items max_digits fuel' room (skip_ws r') (v :: acc)
              else if (N_of_ascii d =? 93)%N
              then Ret (JArr (rev (v :: acc)), r')
              else Raise JSONDecodeError
          | EmptyString => Raise JSONDecodeError
          end
      | Raise e => Raise e
      end
  end
with scan_members (max_digits fuel room : nat) (s : string)
  (acc : list (string * json)) : res (json * string) :=
  match fuel with
  | O => Raise JSONDecodeError
  | S fuel' =>
      match s with
      | String q s' =>
          if (N_of_ascii q =? 34)%N then
            match scan_literal s' with
            | Some (key, r) =>
                match skip_ws r with
                | String d r' =>
                    if (N_of_ascii d =? 58)%N then
                      match scan_value max_digits fuel' room (skip_ws r') with
                      | Ret (v, r'') =>
                          match skip_ws r'' with
                          | String e r3 =>
                              if (N_of_ascii e =? 44)%N
                              then scan_members max_digits fuel' room
                                     (skip_ws r3) ((key, v) :: acc)
                              else if (N_of_ascii e =? 125)%N
                              then Ret (JObj (rev ((key, v) :: acc)), r3)
                              else Raise JSONDecodeError
                          | EmptyString => Raise JSONDecodeError
                          end
                      | Raise e => Raise e
                      end
                    else Raise JSONDecodeError
                | EmptyString => Raise JSONDecodeError
                end
            | None => Raise JSONDecodeError
            end
          else Raise JSONDecodeError
      | EmptyString => Raise JSONDecodeError
      end
  end.

(** [json.loads(data)]: one value between optional white space. *)
Definition json_loads (py : interpreter) (data : string) : res json :=
  match scan_value (int_max_str_digits py) (2 * String.length data + 2)
          (recursion_room py) (skip_ws data) with
  | Ret (v, r) =>
      match skip_ws r with
      | EmptyString => Ret v
      | String _ _ => Raise JSONDecodeError
      end
  | Raise e => Raise e
  end.


(** ** The [unicode_escape] codec

    [header.encode('utf-8').decode('unicode_escape')], as the
    [nonebot.adapters.spigot] package reads the identity header: the bytes
    of the text are read as Latin-1 apart from backslash escapes.  A
    named escape, a backslash and [N{...}], stands for the character
    that the table [names] of the interpreter has under the name between
    the braces. *)

Definition is_octal (c : ascii) : bool := ascii_in 48 55 c.
Definition octal_value (c : ascii) : N := (N_of_ascii c - 48)%N.

Definition single_escape (c : ascii) : option N :=
  let n := N_of_ascii c in
  if ((n =? 92) || (n =? 39) || (n =? 34))%N then Some n
  else if (n =? 97)%N then Some 7%N
  else if (n =? 98)%N then Some 8%N
  else if (n =? 102)%N then Some 12%N
  else if (n =? 110)%N then Some 10%N
  else if (n =? 114)%N then Some 13%N
  else if (n =? 116)%N then Some 9%N
  else if (n =? 118)%N then Some 11%N
  else None.

Definition res_cons {A : Type} (a : A) (r : res (list A)) : res (list A) :=
  res_bind r (fun l => Ret (a :: l)).

Definition hex_escape (hs : list ascii) (rest : res (list N))
  : res (list N) :=
  match hex_digits hs 0 with
  | Some v => if (v <=? 1114111)%N then res_cons v rest
              else Raise UnicodeDecodeError
  | None => Raise UnicodeDecodeError
  end.

(** The character of a named escape whose name is [name], read backwards:
    an empty name and an unknown one are refused. *)
Definition named_escape (names : string -> option N) (name : list ascii)
  (rest : res (list N)) : res (list N) :=
  match name with
  | [] => Raise UnicodeDecodeError
  | _ :: _ =>
      match names (string_of_chars (rev name)) with
      | Some p => res_cons p rest
      | None => Raise UnicodeDecodeError
      end
  end.

(** The code points the codec yields. *)
Fixpoint escape_points (names : string -> option N) (s : string)
  : res (list N) :=
  match s with
  | EmptyString => Ret []
  | String c s1 =>
      if negb (N_of_ascii c =? 92)%N
      then res_cons (N_of_ascii c) (escape_points names s1)
      else
        match s1 with
        | EmptyString => Raise UnicodeDecodeError
        | String e s2 =>
            let n := N_of_ascii e in
            if (n =? 10)%N then escape_points names s2
            else
              match single_escape e with
              | Some p => res_cons p (escape_points names s2)
              | None =>
                  if is_octal e then
                    match s2 with
                    | String o2 s3 =>
                        if is_octal o2 then
                          match s3 with
                          | String o3 s4 =>
                              if is_octal o3
                              then res_cons (64 * octal_value e
                                             + 8 * octal_value o2
                                             + octal_value o3)%N
                                     (escape_points names s4)
                              else res_cons (8 * octal_value e
                                             + octal_value o2)%N
                                     (escape_points names s3)
                          | EmptyString =>
                              res_cons (8 * octal_value e + octal_value o2)%N
                                (escape_points names s3)
                          end
                        else res_cons (octal_value e) (escape_points names s2)
                    | EmptyString =>
                        res_cons (octal_value e) (escape_points names s2)
                    end
                  else if (n =? 120)%N then
                    match s2 with
                    | String h1 (String h2 s4) =>
                        hex_escape [h1; h2] (escape_points names s4)
                    | _ => Raise UnicodeDecodeError
                    end
                  else if (n =? 117)%N then
                    match s2 with
                    | String h1 (String h2 (String h3 (String h4 s6))) =>
                        hex_escape [h1; h2; h3; h4] (escape_points names s6)
                    | _ => Raise UnicodeDecodeError
                    end
                  else if (n =? 85)%N then
                    match s2 with
                    | String h1 (String h2 (String h3 (String h4
                        (String h5 (String h6 (String h7 (String h8 s10)))))))
                      =>
                        hex_escape [h1; h2; h3; h4; h5; h6; h7; h8]
                          (escape_points names s10)
                    | _ => Raise UnicodeDecodeError
                    end
                  else if (n =? 78)%N then
                    match s2 with
                    | String b s3 =>
                        if (N_of_ascii b =? 123)%N then
                          (fix closing_brace (name : list ascii) (t : string)
                             {struct t} : res (list N) :=
                             match t with
                             | EmptyString => Raise UnicodeDecodeError
                             | String d t' =>
                                 if (N_of_ascii d =? 125)%N
                                 then named_escape names name
                                        (escape_points names t')
                                 else closing_brace (d :: name) t'
                             end) [] s3
                        else Raise UnicodeDecodeError
                    | EmptyString => Raise UnicodeDecodeError
                    end
                  else res_cons 92%N (res_cons n (escape_points names s2))
              end
        end
  end.

Definition unicode_escape (py : interpreter) (s : string) : res string :=
  res_bind (escape_points (unicode_name py) s)
    (fun ps => Ret (string_of_chars (concat (map utf8 ps)))).

(** A text as it stands in a header: [no_backslash] when the codec finds
    no escape in it, [plain] when it is ASCII as well; [high_bytes]
    counts the bytes the codec reads as Latin-1 letters. *)
Definition is_backslash (c : ascii) : bool := (N_of_ascii c =? 92)%N.
Definition is_high_byte (c : ascii) : bool := (128 <=? N_of_ascii c)%N.

Fixpoint no_backslash (s : string) : bool :=
  match s with
  | EmptyString => true
  | String c s' => negb (is_backslash c) && no_backslash s'
  end.

Fixpoint high_bytes (s : string) : nat :=
  match s with
  | EmptyString => 0
  | String c s' => (if is_high_byte c then 1 else 0) + high_bytes s'
  end.

Definition plain (s : string) : bool :=
  no_backslash s && (high_bytes s =? 0)%nat.

Definition backslash : string := String (ascii_of_N 92) EmptyString.

(** ** Generators

    What a [for] loop sees of a Python generator: the items it yields, in
    order, until it ends or raises.  The loop forces it item by item, so
    what follows a [break] is never run. *)

Inductive gen (A : Type) : Type :=
| GEnd
| GRaise (e : exc)
| GYield (a : A) (rest : gen A).

Arguments GEnd {A}.
Arguments GRaise {A} e.
Arguments GYield {A} a rest.

Fixpoint gen_of_list {A : Type} (l : list A) : gen A :=
  match l with
  | [] => GEnd
  | a :: l' => GYield a (gen_of_list l')
  end.

(** [pre] then [rest]: the generator that yields the items of [pre] first. *)
Fixpoint gen_app {A : Type} (pre : list A) (rest : gen A) : gen A :=
  match pre with
  | [] => rest
  | a :: pre' => GYield a (gen_app pre' rest)
  end.

(** ** Payloads *)

(** [data.get(key)] on a decoded object: a repeated member keeps its last
    value, as [json.loads] fills the [dict]. *)
Fixpoint member (key : string) (members : list (string * json))
  : option json :=
  match members with
  | [] => None
  | (k, v) :: rest =>
      match member key rest with
      | Some later => Some later
      | None => if String.eqb k key then Some v else None
      end
  end.

(** ** The Collator *)

Section Collator.

Context {model : Type}.

(** The value a variant declares for a discriminator field, if any. *)
Variable declared : model -> string -> option string.

(** Modelled from the spec: [collator.py] is not under src/.  The
    Collator of section 4.2 is built from a name, the variants and the
    ordered discriminator fields. *)
Record Collator : Type := {
  collator_name : string;
  models : list model;
  keys : list string
}.

(** The key of a variant: the values it declares for the leading fields.
    A variant that declares a category only has a partial key, and the
    generic fallback, which declares no value, the empty one. *)
Fixpoint declared_prefix (m : model) (fields : list string) : list string :=
  match fields with
  | [] => []
  | f :: fields' =>
      match declared m f with
      | Some v => v :: declared_prefix m fields'
      | None => []
      end
  end.

(** The non-empty prefixes of a key, shortest first. *)
Fixpoint nonempty_prefixes {A : Type} (l : list A) : list (list A) :=
  match l with
  | [] => []
  | a :: l' => [a] :: map (cons a) (nonempty_prefixes l')
  end.

Definition key_eqb (k1 k2 : list string) : bool :=
  bool_decide (k1 = k2).

Fixpoint is_prefix (k full : list string) : bool :=
  match k, full with
  | [], _ => true
  | a :: k', b :: full' => String.eqb a b && is_prefix k' full'
  | _ :: _, [] => false
  end.

(** Insertion of a variant before the first less specific one. *)
Fixpoint insert_specific (fields : list string) (m : model)
  (ms : list model) : list model :=
  match ms with
  | [] => [m]
  | m' :: ms' =>
      if (length (declared_prefix m' fields)
          <? length (declared_prefix m fields))%nat
      then m :: ms
      else m' :: insert_specific fields m ms'
  end.

Definition most_specific_first (fields : list string) (ms : list model)
  : list model :=
  fold_left (fun acc m => insert_specific fields m acc) ms [].

(** The candidates of a key: the variants whose own key is the key or a
    prefix of it, the most specific first, a category-only variant after
    the variants of its category and the generic fallback last. *)
Definition entries_of (c : Collator) (k : list string) : list model :=
  most_specific_first (keys c)
    (filter (fun m => is_prefix (declared_prefix m (keys c)) k = true)
       (models c)).

(** Modelled from the spec: the Model Index of sections 3 and 4.2 is not
    under src/.  It is built once and maps every key of a variant, full
    or partial, to the candidates of that key. *)
Definition build_index (c : Collator) : list (list string * list model) :=
  map (fun k => (k, entries_of c k))
    (remove_dups (map (fun m => declared_prefix m (keys c)) (models c))).

Fixpoint index_lookup (index : list (list string * list model))
  (k : list string) : list model :=
  match index with
  | [] => []
  | (k', ms) :: index' => if key_eqb k k' then ms else index_lookup index' k
  end.

(** The text of a discriminator value; a value that is no text matches
    no declared value. *)
Definition text_of (v : json) : option string :=
  match v with
  | JStr s => Some s
  | _ => None
  end.

(** The values of the configured fields in the payload; a missing field
    maps to the empty marker [None]. *)
Definition payload_values (fields : list string)
  (payload : list (string * json)) : list (option json) :=
  map (fun f => member f payload) fields.

(** A partial key is available when none of its values is the empty
    marker; the index holds declared values, which are texts. *)
Fixpoint key_of (vs : list (option json)) : option (list string) :=
  match vs with
  | [] => Some []
  | Some v :: vs' =>
      match text_of v, key_of vs' with
      | Some s, Some l => Some (s :: l)
      | _, _ => None
      end
  | None :: _ => None
  end.

(** The partial keys of a payload, the longest first and the empty key
    last. *)
Definition partial_keys (vs : list (option json))
  : list (list (option json)) :=
  rev (nonempty_prefixes vs) ++ [[]].

(** The entries of the first of the partial keys that has any. *)
Fixpoint first_entries (index : list (list string * list model))
  (ks : list (list (option json))) : list model :=
  match ks with
  | [] => []
  | k :: ks' =>
      match key_of k with
      | Some key =>
          match index_lookup index key with
          | [] => first_entries index ks'
          | ms => ms
          end
      | None => first_entries index ks'
      end
  end.

(** Modelled from the spec: [Collator.get_model] is not under src/.
    The [resolve] of section 4.2 reads the values of the configured
    fields in the payload, a missing one as the empty marker, looks up
    the longest available partial key that has entries in the index and
    answers with them, most specific variant first.  On the payload
    without any discriminator field the spec has two answers: the last
    sentence of section 4.2 has the empty sequence, section 8 and the
    docstring of [get_event_model] (the [Event Model] and the [FallBack
    Event Model]) have the generic fallback.  The model follows the
    latter: the empty key is the key of the generic fallback, and it is a
    partial key of every payload. *)
Definition resolve (c : Collator) (payload : list (string * json))
  : list model :=
  first_entries (build_index c)
    (partial_keys (payload_values (keys c) payload)).

(** [Collator.get_model], as [get_event_model] iterates it. *)
Definition collator_get_model (c : Collator) (payload : list (string * json))
  : gen model :=
  gen_of_list (resolve c payload).

End Collator.

(** ** A sample schema *)

(** Modelled from the spec: [event.py] is not under src/.  The variants
    of the scenarios of section 8: the base [Event], [PlayerJoin] and a
    sibling of it. *)
Inductive sample_model : Type :=
| BaseEvent
| PlayerJoin
| PlayerQuit.

Inductive sample_event : Type :=
| AnEvent (event_name : string)
| APlayerJoin (player : string)
| APlayerQuit (player : string).

Definition sample_declared (m : sample_model) (field : string)
  : option string :=
  if String.eqb field "event_name" then
    match m with
    | BaseEvent => None
    | PlayerJoin => Some "PlayerJoin"
    | PlayerQuit => Some "PlayerQuit"
    end
  else None.

Definition text_member (key : string) (payload : list (string * json))
  : res string :=
  match member key payload with
  | Some (JStr s) => Ret s
  | _ => Raise ValidationError
  end.

(** Modelled from the spec: the [parse_obj] of the variants above.  Every
    payload with an [event_name] text fits the base [Event]; [PlayerJoin]
    needs its own [event_name] and the [player]. *)
Definition sample_parse_obj (m : sample_model)
  (payload : list (string * json)) : res sample_event :=
  res_bind (text_member "event_name" payload) (fun name =>
    match m with
    | BaseEvent => Ret (AnEvent name)
    | PlayerJoin =>
        if String.eqb name "PlayerJoin"
        then res_bind (text_member "player" payload)
               (fun p => Ret (APlayerJoin p))
        else Raise ValidationError
    | PlayerQuit =>
        if String.eqb name "PlayerQuit"
        then res_bind (text_member "player" payload)
               (fun p => Ret (APlayerQuit p))
        else Raise ValidationError
    end).

Definition sample_collator : Collator :=
  {| collator_name := "Spigot";
     models := [BaseEvent; PlayerJoin; PlayerQuit];
     keys := ["event_name"] |}.

Definition sample_get_model (payload : list (string * json))
  : gen sample_model :=
  collator_get_model sample_declared sample_collator payload.

(** ** The models of the [event] module

    [DEFAULT_MODELS] is filled when the module is loaded, from the
    attributes of [event] in the order of [dir(event)]. *)

(** A class as [issubclass] sees it: its identity and the identities of
    its proper ancestors, the rest of its [__mro__]. *)
Record pyclass : Type := {
  class_id : string;
  ancestors : list string
}.

(** An attribute of a module: a class, or anything else. *)
Inductive pyobj : Type :=
| PyClass (c : pyclass)
| PyOther.

(** [inspect.isclass(model)] *)
Definition isclass (o : pyobj) : bool :=
  match o with
  | PyClass _ => true
  | PyOther => false
  end.

(** [issubclass(model, Event)]: a class is a subclass of itself. *)
Definition issubclass (c base : pyclass) : bool :=
  String.eqb (class_id c) (class_id base)
  || existsb (String.eqb (class_id base)) (ancestors c).

(** The loop over [dir(event)]: [attrs] holds each name with
    [getattr(event, name)]. *)
Fixpoint default_models (base : pyclass) (attrs : list (string * pyobj))
  : list pyclass :=
  match attrs with
  | [] => []
  | (_, model) :: rest =>
      match model with
      | PyClass c =>
          if issubclass c base
          then c :: default_models base rest
          else default_models base rest
      | PyOther => default_models base rest
      end
  end.

(** The classes among the attributes, in order. *)
Fixpoint classes_of (attrs : list (string * pyobj)) : list pyclass :=
  match attrs with
  | [] => []
  | (_, PyClass c) :: rest => c :: classes_of rest
  | (_, PyOther) :: rest => classes_of rest
  end.

(** [l1] is [l2] with some of its items left out. *)
Inductive subsequence {A : Type} : list A -> list A -> Prop :=
| subsequence_nil : subsequence [] []
| subsequence_skip (a : A) (l1 l2 : list A) :
    subsequence l1 l2 -> subsequence l1 (a :: l2)
| subsequence_keep (a : A) (l1 l2 : list A) :
    subsequence l1 l2 -> subsequence (a :: l1) (a :: l2).

(** ** Setting the adapter up *)

(** [isinstance(self.driver, ReverseDriver)] *)
Inductive driver : Type :=
| reverse_driver
| forward_only_driver.

(** [WebSocketServerSetup(URL(path), name, self._handle_ws)] *)
Record WebSocketServerSetup : Type := {
  setup_path : string;
  setup_name : string
}.

(** [Adapter.get_name] *)
Definition get_name : string := "Spigot".

(** [Adapter._setup]: the servers handed to
    [self.setup_websocket_server]. *)
Definition setup (d : driver) : list WebSocketServerSetup :=
  match d with
  | reverse_driver =>
      [{| setup_path := "/spigot/ws"; setup_name := get_name |}]
  | forward_only_driver => []
  end.

(** ** The adapter *)

(** The two packages of the repository that define [Adapter]. *)
Inductive package : Type :=
| adapter_spigot    (* src/nonebot/adapter/spigot/adapter.py *)
| adapters_spigot.  (* src/nonebot/adapters/spigot/adapter.py *)

(** A connection as the driver hands it over:
    [websocket.request.headers.get("x-self-name")] is [x_self_name]. *)
Record WebSocket : Type := {
  ws_id : nat;
  x_self_name : option string
}.

(** [Bot(self, self_name)] *)
Record Bot : Type := { self_id : string }.

Inductive level : Type := DEBUG | INFO | WARNING | ERROR.

(** What an [await] of the coroutine is resumed with: a value, an
    exception of the awaited call, or the cancellation of the task. *)
Inductive answer : Type :=
| Resumed (data : string)
| Thrown (e : exc)
| Cancel.

(** Where [_handle_ws] stands between two of its atomic blocks. *)
Inductive pc : Type :=
| AwaitReject
| AwaitAccept (self_name : string)
| AwaitReceive (self_name : string) (bot : Bot)
| AwaitClose (self_name : string) (bot : Bot) (cancelled : bool)
| Returned
| Raised (e : exc)
| Cancelled.

Definition finished (p : pc) : bool :=
  match p with
  | Returned | Raised _ | Cancelled => true
  | _ => false
  end.

(** [not self_name] *)
Definition falsy (self_name : option string) : bool :=
  match self_name with
  | None => true
  | Some EmptyString => true
  | Some (String _ _) => false
  end.

(** ** Sample connections and frames *)

(** A JSON string literal: the text between two quotation marks. *)
Definition dq (s : string) : string :=
  String (ascii_of_N 34) (s +:+ String (ascii_of_N 34) EmptyString).

(** [{"event_name":"PlayerJoin","player":"Steve"}], the frame of the
    scenario of section 8. *)
Definition join_frame : string :=
  "{" +:+ dq "event_name" +:+ ":" +:+ dq "PlayerJoin" +:+ ","
  +:+ dq "player" +:+ ":" +:+ dq "Steve" +:+ "}".

Definition join_members : list (string * json) :=
  [("event_name", JStr "PlayerJoin"); ("player", JStr "Steve")].

Definition first_ws : WebSocket :=
  {| ws_id := 1; x_self_name := Some "Bot1" |}.

Definition second_ws : WebSocket :=
  {| ws_id := 2; x_self_name := Some "Bot1" |}.

Definition bot1 : Bot := {| self_id := "Bot1" |}.

(** An interpreter for the scenarios: the limit on the digits of an
    integer that CPython sets by default, room for 900 nested arrays and
    objects, and of the character names the one that the scenarios
    use. *)
Definition sample_python : interpreter :=
  {| int_max_str_digits := 4300;
     recursion_room := 900;
     unicode_name :=
       fun name => if String.eqb name "DIGIT ONE" then Some 49%N else None |}.

Section Adapter.

(** The classes of [event.py] and their instances; [Event] is the base
    class and [get_model] the Collator [Adapter.event_models], neither of
    them under src/.  [py] is the interpreter that runs the adapter. *)
Context {model event : Type}.
Variable parse_obj : model -> list (string * json) -> res event.
Variable Event : model.
Variable get_model : list (string * json) -> gen model.
Variable py : interpreter.

Inductive message : Type :=
| MissingHeader                      (* Missing X-Self-ID Header *)
| AlreadyABot (self_name : string)   (* There's already a bot ..., ignored *)
| BotConnected (self_name : string)
| ClosedByPeer (self_name : string)
| ErrorWhileProcess (self_name : string)
| EventParserError
| FailedToParse (raw : json).

(** What the adapter does to the world around it, in the order it does
    it; [ParseObj m] records a call of [m.parse_obj]. *)
Inductive effect : Type :=
| Log (lv : level) (msg : message) (e : option exc)
| Accept (ws : WebSocket)
| Close (ws : WebSocket) (code : Z) (reason : string)
| CloseDefault (ws : WebSocket)
| BotConnect (bot : Bot)
| BotDisconnect (bot : Bot)
| ParseObj (m : model)
| CreateTask (bot : Bot) (ev : event).

(** [self.connections], the [get_connections] of [.utils] (which the
    [nonebot.adapters.spigot] package subscripts like a [dict]),
    [self.bots], and the effects so far. *)
Record state : Type := {
  connections : gmap string WebSocket;
  get_connections : gmap string WebSocket;
  bots : gmap string Bot;
  trace : list effect
}.

Definition emit (effs : list effect) (st : state) : state :=
  {| connections := connections st;
     get_connections := get_connections st;
     bots := bots st;
     trace := trace st ++ effs |}.

(** *** The event decoder *)

(** [get_event_model]: [yield from cls.event_models.get_model(data)] *)
Definition get_event_model (data : list (string * json)) : gen model :=
  get_model data.

(** The [for ... else] of [json_to_event]: the effects, and the event or
    the exception that leaves the loop. *)
Fixpoint for_models (g : gen model) (json_data : list (string * json))
  : list effect * res event :=
  match g with
  | GYield m rest =>
      match parse_obj m json_data with
      | Ret ev => ([ParseObj m], Ret ev)
      | Raise e =>
          let '(effs, r) := for_models rest json_data in
          (ParseObj m :: Log DEBUG EventParserError (Some e) :: effs, r)
      end
  | GRaise e => ([], Raise e)
  | GEnd => ([ParseObj Event], parse_obj Event json_data)
  end.

Definition json_to_event (json_data : json) (self_name : option string)
  : list effect * res (option event) :=
  match json_data with
  | JObj members =>
      match for_models (get_event_model members) members with
      | (effs, Ret ev) => (effs, Ret (Some ev))
      | (effs, Raise e) =>
          (effs ++ [Log ERROR (FailedToParse json_data) (Some e)], Ret None)
      end
  | _ => ([], Ret None)
  end.

(** *** The framework

    [bot_connect] and [bot_disconnect] are nonebot's [BaseAdapter], which
    keeps [self.bots]: [self.bots[bot.self_id] = bot] and
    [self.bots.pop(bot.self_id, None)]. *)

Definition bot_connect (bot : Bot) (st : state) : state :=
  {| connections := connections st;
     get_connections := get_connections st;
     bots := <[self_id bot := bot]> (bots st);
     trace := trace st ++ [BotConnect bot] |}.

Definition bot_disconnect (bot : Bot) (st : state) : state :=
  {| connections := connections st;
     get_connections := get_connections st;
     bots := delete (self_id bot) (bots st);
     trace := trace st ++ [BotDisconnect bot] |}.

(** *** [_handle_ws] *)

(** The first line: the identity the connection presents. *)
Definition read_self_name (p : package) (ws : WebSocket)
  : res (option string) :=
  match p with
  | adapter_spigot => Ret (x_self_name ws)
  | adapters_spigot =>
      match x_self_name ws with
      | None => Raise AttributeError
      | Some header => res_bind (unicode_escape py header) (fun s => Ret (Some s))
      end
  end.

Definition missing_reason (p : package) : string :=
  match p with
  | adapter_spigot => "Missing X-Self-ID Header"
  | adapters_spigot => "Missing X-Self-Name Header"
  end.

Definition duplicate_reason (p : package) : string :=
  match p with
  | adapter_spigot => "Duplicate X-Self-ID"
  | adapters_spigot => "Duplicate X-Self-Name"
  end.

(** From the call to the first [await]. *)
Definition handshake (p : package) (ws : WebSocket) (st : state)
  : pc * state :=
  match read_self_name p ws with
  | Raise e => (Raised e, st)
  | Ret header =>
      if falsy header then
        (AwaitReject,
         emit [Log WARNING MissingHeader None;
               Close ws 1008 (missing_reason p)] st)
      else
        let self_name := default EmptyString header in
        match bots st !! self_name with
        | Some _ =>
            (AwaitReject,
             emit [Log WARNING (AlreadyABot self_name) None;
                   Close ws 1008 (duplicate_reason p)] st)
        | None => (AwaitAccept self_name, emit [Accept ws] st)
        end
  end.

(** After [await websocket.close(1008, ...)]: [return]. *)
Definition after_reject (a : answer) (st : state) : pc * state :=
  match a with
  | Resumed _ => (Returned, st)
  | Thrown e => (Raised e, st)
  | Cancel => (Cancelled, st)
  end.

(** [self.connections[self_name] = websocket], and in the
    [nonebot.adapters.spigot] package [get_connections[self_name] =
    websocket]. *)
Definition register (p : package) (self_name : string) (ws : WebSocket)
  (st : state) : state :=
  {| connections := <[self_name := ws]> (connections st);
     get_connections :=
       match p with
       | adapter_spigot => get_connections st
       | adapters_spigot => <[self_name := ws]> (get_connections st)
       end;
     bots := bots st;
     trace := trace st |}.

(** After [await websocket.accept()], up to the first
    [await websocket.receive()]. *)
Definition after_accept (p : package) (ws : WebSocket) (self_name : string)
  (a : answer) (st : state) : pc * state :=
  match a with
  | Resumed _ =>
      let bot := {| self_id := self_name |} in
      (AwaitReceive self_name bot,
       emit [Log INFO (BotConnected self_name) None]
         (bot_connect bot (register p self_name ws st)))
  | Thrown e => (Raised e, st)
  | Cancel => (Cancelled, st)
  end.

(** The [finally] clause up to its [await websocket.close()]. *)
Definition enter_finally (ws : WebSocket) (self_name : string) (bot : Bot)
  (cancelled : bool) (st : state) : pc * state :=
  (AwaitClose self_name bot cancelled, emit [CloseDefault ws] st).

(** The two [except] clauses, then [finally]. *)
Definition leave_loop (ws : WebSocket) (self_name : string) (bot : Bot)
  (e : exc) (st : state) : pc * state :=
  enter_finally ws self_name bot false
    (emit [match e with
           | WebSocketClosed => Log WARNING (ClosedByPeer self_name) None
           | _ => Log ERROR (ErrorWhileProcess self_name) (Some e)
           end] st).

(** One turn of [while True], from the answer of
    [await websocket.receive()]. *)
Definition after_receive (ws : WebSocket) (self_name : string) (bot : Bot)
  (a : answer) (st : state) : pc * state :=
  match a with
  | Resumed data =>
      match json_loads py data with
      | Ret json_data =>
          match json_to_event json_data (Some self_name) with
          | (effs, Ret (Some ev)) =>
              (AwaitReceive self_name bot,
               emit (effs ++ [CreateTask bot ev]) st)
          | (effs, Ret None) => (AwaitReceive self_name bot, emit effs st)
          | (effs, Raise e) => leave_loop ws self_name bot e (emit effs st)
          end
      | Raise e => leave_loop ws self_name bot e st
      end
  | Thrown e => leave_loop ws self_name bot e st
  | Cancel => enter_finally ws self_name bot true st
  end.

(** [self.connections.pop(self_name, None)] *)
Definition unregister (self_name : string) (st : state) : state :=
  {| connections := delete self_name (connections st);
     get_connections := get_connections st;
     bots := bots st;
     trace := trace st |}.

(** The rest of [finally], after [await websocket.close()] under
    [contextlib.suppress(Exception)]; a cancellation is not suppressed.
    After the clause, a cancellation that left the loop goes on. *)
Definition after_close (self_name : string) (bot : Bot) (cancelled : bool)
  (a : answer) (st : state) : pc * state :=
  match a with
  | Cancel => (Cancelled, st)
  | Resumed _ | Thrown _ =>
      (if cancelled then Cancelled else Returned,
       bot_disconnect bot (unregister self_name st))
  end.

(** The coroutine resumed at [at_pc] with [a]. *)
Definition resume (p : package) (ws : WebSocket) (at_pc : pc) (a : answer)
  (st : state) : pc * state :=
  match at_pc with
  | AwaitReject => after_reject a st
  | AwaitAccept self_name => after_accept p ws self_name a st
  | AwaitReceive self_name bot => after_receive ws self_name bot a st
  | AwaitClose self_name bot cancelled => after_close self_name bot cancelled a st
  | Returned | Raised _ | Cancelled => (at_pc, st)
  end.

(** The coroutine run from [at_pc] through the answers of its awaits. *)
Fixpoint resume_all (p : package) (ws : WebSocket) (at_pc : pc)
  (answers : list answer) (st : state) : pc * state :=
  match answers with
  | [] => (at_pc, st)
  | a :: answers' =>
      let '(next, st') := resume p ws at_pc a st in
      resume_all p ws next answers' st'
  end.

(** [_handle_ws(websocket)], alone on the event loop. *)
Definition handle_ws (p : package) (ws : WebSocket) (answers : list answer)
  (st : state) : pc * state :=
  let '(first, st') := handshake p ws st in
  resume_all p ws first answers st'.

(** *** Several connections on one event loop

    The loop runs one atomic block at a time: a new connection runs its
    handshake, a suspended one is resumed with the answer of its await. *)

Inductive turn : Type :=
| Connect (ws : WebSocket)
| Wake (id : nat) (a : answer).

Record loop : Type := {
  world : state;
  tasks : gmap nat (WebSocket * pc)
}.

Definition loop_step (p : package) (l : loop) (t : turn) : loop :=
  match t with
  | Connect ws =>
      match tasks l !! ws_id ws with
      | Some _ => l
      | None =>
          let '(next, st') := handshake p ws (world l) in
          {| world := st'; tasks := <[ws_id ws := (ws, next)]> (tasks l) |}
      end
  | Wake id a =>
      match tasks l !! id with
      | Some (ws, at_pc) =>
          let '(next, st') := resume p ws at_pc a (world l) in
          {| world := st'; tasks := <[id := (ws, next)]> (tasks l) |}
      | None => l
      end
  end.

Definition run_loop (p : package) (turns : list turn) (l : loop) : loop :=
  fold_left (loop_step p) turns l.

Definition empty_state : state :=
  {| connections := ∅; get_connections := ∅; bots := ∅; trace := [] |}.

Definition empty_loop : loop := {| world := empty_state; tasks := ∅ |}.

(** The calls of [bot_disconnect] among the effects. *)
Definition is_disconnect (bot : Bot) (e : effect) : bool :=
  match e with
  | BotDisconnect b => String.eqb (self_id b) (self_id bot)
  | _ => false
  end.

Definition disconnects (bot : Bot) (effs : list effect) : nat :=
  length (List.filter (is_disconnect bot) effs).

(** The models whose [parse_obj] was called, in order. *)
Fixpoint parse_calls (effs : list effect) : list model :=
  match effs with
  | [] => []
  | ParseObj m :: effs' => m :: parse_calls effs'
  | _ :: effs' => parse_calls effs'
  end.



(** Every identity of the registry has its bot, and conversely, and the
    empty text is no identity. *)
Definition consistent (st : state) : Prop :=
  dom (connections st) = dom (bots st)
  /\ connections st !! EmptyString = None.

(** A suspended coroutine has read a non-empty identity, and its bot is
    the one of that identity. *)
Definition pc_ok (at_pc : pc) : Prop :=
  match at_pc with
  | AwaitAccept self_name => self_name <> EmptyString
  | AwaitReceive self_name bot | AwaitClose self_name bot _ =>
      self_id bot = self_name /\ self_name <> EmptyString
  | _ => True
  end.

(** What every state of the event loop satisfies. *)
Definition loop_inv (l : loop) : Prop :=
  consistent (world l)
  /\ forall id ws at_pc, tasks l !! id = Some (ws, at_pc) -> pc_ok at_pc.

(** Effects without a call of [bot_disconnect]. *)
Definition quiet (effs : list effect) : Prop :=
  forall bot, disconnects bot effs = 0.

(** The effects of decoding a frame: logs, calls of [parse_obj] and the
    task of the event; no accept, no close, no connect and no
    disconnect. *)
Definition decoding_effect (e : effect) : Prop :=
  match e with
  | Log _ _ _ | ParseObj _ | CreateTask _ _ => True
  | _ => False
  end.

(** What holds of a connection handled alone since the state [st0],
    while the coroutine is suspended: nothing was disconnected, and from
    the registration to the cleanup the registry holds its entry. *)
Definition run_inv (p : package) (ws : WebSocket) (st0 : state)
  (at_pc : pc) (st : state) : Prop :=
  match at_pc with
  | Returned | Raised _ | Cancelled => True
  | AwaitReject | AwaitAccept _ =>
      exists effs, trace st = trace st0 ++ effs /\ quiet effs
  | AwaitReceive self_name bot | AwaitClose self_name bot _ =>
      exists effs,
        trace st = trace st0 ++ effs /\ quiet effs
        /\ connections st !! self_name = Some ws
        /\ (p = adapters_spigot -> get_connections st !! self_name = Some ws)
  end.

(** *** The rest of the class *)

(** [Adapter.__init__]: the state it leaves and the servers it sets
    up. *)
Definition init (d : driver) : state * list WebSocketServerSetup :=
  (empty_state, setup d).

(** [Adapter._call_api]: [pass]. *)
Definition call_api (bot : Bot) (api : string)
  (data : list (string * json)) (st : state) : state * res (option json) :=
  (st, Ret None).

(** [Adapter.get_connections] of the [nonebot.adapters.spigot] package:
    [return self.connections]. *)
Definition Adapter_get_connections (st : state) : gmap string WebSocket :=
  connections st.

(** *** What a connection may touch *)

(** The identity under which a connection can register, if it presents
    one. *)
Definition identity (p : package) (ws : WebSocket) : option string :=
  match read_self_name p ws with
  | Ret (Some (String c s)) => Some (String c s)
  | _ => None
  end.

(** An effect of the connection [ws] with the bot of [self_name]. *)
Definition own_effect (ws : WebSocket) (self_name : option string)
  (e : effect) : Prop :=
  match e with
  | Accept w | Close w _ _ | CloseDefault w => w = ws
  | BotConnect b | BotDisconnect b | CreateTask b _ =>
      Some (self_id b) = self_name
  | Log _ _ _ | ParseObj _ => True
  end.

(** The three maps are as they were. *)
Definition same_registry (st st' : state) : Prop :=
  connections st' = connections st
  /\ get_connections st' = get_connections st
  /\ bots st' = bots st.

(** The three maps are as they were at the identity [k]. *)
Definition same_at (k : string) (st st' : state) : Prop :=
  connections st' !! k = connections st !! k
  /\ get_connections st' !! k = get_connections st !! k
  /\ bots st' !! k = bots st !! k.

(** A coroutine past its handshake stands for the identity its
    connection presents; from the registration to the cleanup, when no
    other connection interferes, the maps hold its entries. *)
Definition stands_for (p : package) (ws : WebSocket) (at_pc : pc) : Prop :=
  match at_pc with
  | AwaitAccept self_name =>
      identity p ws = Some self_name
  | AwaitReceive self_name bot | AwaitClose self_name bot _ =>
      identity p ws = Some self_name /\ bot = {| self_id := self_name |}
  | _ => True
  end.

Definition holds_entries (p : package) (ws : WebSocket) (at_pc : pc)
  (st : state) : Prop :=
  match at_pc with
  | AwaitReceive self_name bot | AwaitClose self_name bot _ =>
      connections st !! self_name = Some ws
      /\ bots st !! self_name = Some bot
      /\ (p = adapters_spigot -> get_connections st !! self_name = Some ws)
  | _ => True
  end.

(** What holds of a connection handled alone since the state [st0], at
    every point of its life. *)
Definition handled (p : package) (ws : WebSocket) (st0 : state)
  (at_pc : pc) (st : state) : Prop :=
  stands_for p ws at_pc
  /\ holds_entries p ws at_pc st
  /\ (forall k, identity p ws <> Some k -> same_at k st0 st)
  /\ exists effs,
       trace st = trace st0 ++ effs
       /\ Forall (own_effect ws (identity p ws)) effs.

(** *** Events in the order of their frames *)

(** The events of the tasks created, in order. *)
Fixpoint created (effs : list effect) : list event :=
  match effs with
  | [] => []
  | CreateTask _ ev :: effs' => ev :: created effs'
  | _ :: effs' => created effs'
  end.

(** The event a frame decodes to, if any. *)
Definition decoded (self_name : string) (data : string) : option event :=
  match json_loads py data with
  | Ret json_data =>
      match snd (json_to_event json_data (Some self_name)) with
      | Ret ev => ev
      | Raise _ => None
      end
  | Raise _ => None
  end.

(** *** Connections with identities of their own *)

(** The connections that arrive in the turns of the loop. *)
Fixpoint arrivals (turns : list turn) : list WebSocket :=
  match turns with
  | [] => []
  | Connect ws :: turns' => ws :: arrivals turns'
  | Wake _ _ :: turns' => arrivals turns'
  end.

(** No two of the connections present the same identity. *)
Definition distinct_identities (p : package) (wss : list WebSocket) : Prop :=
  forall w1 w2 self_name,
    In w1 wss -> In w2 wss ->
    identity p w1 = Some self_name -> identity p w2 = Some self_name ->
    ws_id w1 = ws_id w2.

(** Every task of the loop is one of the connections [wss], stands for
    its identity and holds its entries; every bot is the one of a
    connection that arrived. *)
Definition undisturbed (p : package) (wss : list WebSocket) (l : loop)
  : Prop :=
  (forall id ws at_pc,
     tasks l !! id = Some (ws, at_pc) ->
     In ws wss /\ ws_id ws = id
     /\ stands_for p ws at_pc /\ holds_entries p ws at_pc (world l))
  /\ (forall self_name,
        is_Some (bots (world l) !! self_name) ->
        exists id ws at_pc,
          tasks l !! id = Some (ws, at_pc)
          /\ identity p ws = Some self_name).

(** The closes that reject a duplicate. *)
Definition is_duplicate_close (p : package) (e : effect) : bool :=
  match e with
  | Close _ _ reason => String.eqb reason (duplicate_reason p)
  | _ => false
  end.

Definition no_duplicate_close (p : package) (effs : list effect) : Prop :=
  Forall (fun e => is_duplicate_close p e = false) effs.

(** ** Properties of the decoder *)

Lemma parse_calls_app (l1 l2 : list effect) :
  parse_calls (l1 ++ l2) = parse_calls l1 ++ parse_calls l2.
Proof.
  induction l1 as [|e l1 IH]; simpl; [reflexivity|].
  destruct e; simpl; rewrite ?IH; reflexivity.
Qed.

(** The loop stops at the first candidate that parses: the candidates
    before it were tried in order, and what the generator would yield
    next is not looked at. *)
Lemma for_models_first_success (pre : list model) (m : model)
  (rest : gen model) (members : list (string * json)) (ev : event) :
  Forall (fun m' => ~ returned (parse_obj m' members)) pre ->
  parse_obj m members = Ret ev ->
  exists effs,
    for_models (gen_app pre (GYield m rest)) members = (effs, Ret ev)
    /\ parse_calls effs = pre ++ [m].
Proof.
  intros Hpre Hm. induction Hpre as [|m' pre' Hfail _ IH]; simpl.
  - rewrite Hm. exists [ParseObj m]. split; reflexivity.
  - destruct (parse_obj m' members) as [ev'|e] eqn:Hp.
    + exfalso. apply Hfail. exact I.
    + destruct IH as [effs [Hrun Hcalls]]. rewrite Hrun.
      eexists. split; [reflexivity|]. simpl. rewrite Hcalls. reflexivity.
Qed.

(** When every candidate fails and the generator ends, the [else]
    branch parses the payload as the base [Event]. *)
Lemma for_models_all_fail (candidates : list model)
  (members : list (string * json)) :
  Forall (fun m' => ~ returned (parse_obj m' members)) candidates ->
  exists effs,
    for_models (gen_of_list candidates) members
    = (effs, parse_obj Event members)
    /\ parse_calls effs = candidates ++ [Event].
Proof.
  intros Hall. induction Hall as [|m' l Hfail _ IH]; simpl.
  - exists [ParseObj Event]. split; reflexivity.
  - destruct (parse_obj m' members) as [ev'|e] eqn:Hp.
    + exfalso. apply Hfail. exact I.
    + destruct IH as [effs [Hrun Hcalls]]. rewrite Hrun.
      eexists. split; [reflexivity|]. simpl. rewrite Hcalls. reflexivity.
Qed.

(** Every exception of the candidates, of the base [Event] and of the
    generator itself is caught by the outer [except Exception]. *)
Lemma json_to_event_returns (json_data : json) (self_name : option string) :
  returned (snd (json_to_event json_data self_name)).
Proof.
  destruct json_data; simpl; try exact I.
  destruct (for_models (get_event_model members) members) as [effs [ev|e]];
    exact I.
Qed.

(** C6: a value that is no JSON object (an array, a string, a number,
    ...) makes [json_to_event] return [None], and no [parse_obj] is
    called: there is no effect at all. *)
Theorem C6_not_a_dict_returns_none (json_data : json)
  (self_name : option string) :
  is_dict json_data = false ->
  json_to_event json_data self_name = ([], Ret None)
  /\ parse_calls (fst (json_to_event json_data self_name)) = [].
Proof.
  intros Hnot. destruct json_data; simpl in Hnot; try discriminate;
    split; reflexivity.
Qed.

(** C7: for a JSON object, the candidates are tried in the order in
    which [get_event_model] yields them; the instance of the first one
    whose [parse_obj] returns is the result, and no candidate after it
    is tried. *)
Theorem C7_first_parsing_candidate_wins (members : list (string * json))
  (self_name : option string) (pre : list model) (m : model)
  (rest : gen model) (ev : event) :
  get_event_model members = gen_app pre (GYield m rest) ->
  Forall (fun m' => ~ returned (parse_obj m' members)) pre ->
  parse_obj m members = Ret ev ->
  exists effs,
    json_to_event (JObj members) self_name = (effs, Ret (Some ev))
    /\ parse_calls effs = pre ++ [m].
Proof.
  intros Hgen Hpre Hm.
  destruct (for_models_first_success pre m rest members ev Hpre Hm)
    as [effs [Hrun Hcalls]].
  exists effs. split; [|exact Hcalls].
  unfold json_to_event. rewrite Hgen, Hrun. reflexivity.
Qed.

(** C8: [json_to_event] never raises, whatever its input; and for a
    JSON object none of whose candidates parses (there may be none), the
    payload is parsed as the base [Event] after them: its instance is
    the result, or [None] when that fails too. *)
Theorem C8_fallback_then_none (json_data : json)
  (self_name : option string) :
  returned (snd (json_to_event json_data self_name))
  /\ forall (members : list (string * json)) (candidates : list model),
       json_data = JObj members ->
       get_event_model members = gen_of_list candidates ->
       Forall (fun m' => ~ returned (parse_obj m' members)) candidates ->
       exists effs,
         json_to_event json_data self_name
         = (effs, Ret match parse_obj Event members with
                      | Ret ev => Some ev
                      | Raise _ => None
                      end)
         /\ parse_calls effs = candidates ++ [Event].
Proof.
  split.
  - apply json_to_event_returns.
  - intros members candidates -> Hgen Hall.
    destruct (for_models_all_fail candidates members Hall)
      as [effs [Hrun Hcalls]].
    unfold json_to_event. rewrite Hgen, Hrun.
    destruct (parse_obj Event members) as [ev|e].
    + exists effs. split; [reflexivity|exact Hcalls].
    + eexists. split; [reflexivity|].
      rewrite parse_calls_app, Hcalls. simpl. apply app_nil_r.
Qed.

(** ** Properties of the connection life cycle *)



Lemma disconnects_app (bot : Bot) (l1 l2 : list effect) :
  disconnects bot (l1 ++ l2) = disconnects bot l1 + disconnects bot l2.
Proof.
  unfold disconnects. induction l1 as [|e l1 IH]; simpl; [reflexivity|].
  destruct (is_disconnect bot e); simpl; rewrite IH; reflexivity.
Qed.

Lemma quiet_app (l1 l2 : list effect) :
  quiet l1 -> quiet l2 -> quiet (l1 ++ l2).
Proof.
  intros H1 H2 bot. rewrite disconnects_app, H1, H2. reflexivity.
Qed.

Lemma quiet_nil : quiet [].
Proof. intros bot. reflexivity. Qed.

Lemma for_models_quiet (g : gen model) (members : list (string * json)) :
  quiet (fst (for_models g members)).
Proof.
  induction g as [| e | m rest IH]; simpl; try (intros bot; reflexivity).
  destruct (parse_obj m members) as [ev|e]; [intros bot; reflexivity|].
  destruct (for_models rest members) as [effs r]. simpl in *.
  intros bot. exact (IH bot).
Qed.

Lemma json_to_event_quiet (json_data : json) (self_name : option string) :
  quiet (fst (json_to_event json_data self_name)).
Proof.
  destruct json_data; simpl; try apply quiet_nil.
  pose proof (for_models_quiet (get_event_model members) members) as Hq.
  destruct (for_models (get_event_model members) members) as [effs [ev|e]];
    simpl in *; [exact Hq|].
  apply quiet_app; [exact Hq|]. intros bot. reflexivity.
Qed.

Lemma resume_all_app (p : package) (ws : WebSocket) (at_pc : pc)
  (l1 l2 : list answer) (st : state) :
  resume_all p ws at_pc (l1 ++ l2) st
  = let '(mid, st') := resume_all p ws at_pc l1 st in
    resume_all p ws mid l2 st'.
Proof.
  revert at_pc st. induction l1 as [|a l1 IH]; intros at_pc st; simpl.
  - reflexivity.
  - destruct (resume p ws at_pc a st) as [next st']. apply IH.
Qed.

Lemma resume_all_finished (p : package) (ws : WebSocket) (at_pc : pc)
  (answers : list answer) (st : state) :
  finished at_pc = true ->
  resume_all p ws at_pc answers st = (at_pc, st).
Proof.
  intros Hfin. induction answers as [|a l IH]; simpl; [reflexivity|].
  destruct at_pc; simpl in *; try discriminate; exact IH.
Qed.

Lemma handshake_inv (p : package) (ws : WebSocket) (st : state) :
  run_inv p ws st (fst (handshake p ws st)) (snd (handshake p ws st)).
Proof.
  unfold handshake.
  destruct (read_self_name p ws) as [header|e]; simpl; [|exact I].
  destruct (falsy header); simpl.
  - eexists. split; [reflexivity|]. intros bot. reflexivity.
  - destruct (bots st !! default EmptyString header); simpl;
      (eexists; split; [reflexivity|]; intros bot; reflexivity).
Qed.

Lemma resume_inv (p : package) (ws : WebSocket) (st0 : state) (at_pc : pc)
  (a : answer) (st : state) :
  run_inv p ws st0 at_pc st ->
  run_inv p ws st0 (fst (resume p ws at_pc a st))
    (snd (resume p ws at_pc a st)).
Proof.
  intros Hinv. destruct at_pc as [| n | n b | n b c | | |]; simpl;
    try exact I.
  - destruct a; exact I.
  - destruct a; simpl; try exact I.
    destruct Hinv as [effs [Htr Hq]].
    exists (effs ++ [BotConnect {| self_id := n |};
                     Log INFO (BotConnected n) None]).
    split; [|split; [|split]].
    + simpl. rewrite Htr, <- !app_assoc. reflexivity.
    + apply quiet_app; [exact Hq|]. intros bot. reflexivity.
    + simpl. apply lookup_insert_eq.
    + intros ->. simpl. apply lookup_insert_eq.
  - destruct Hinv as [effs [Htr [Hq [Hc Hg]]]].
    assert (Hleave : forall e st1 more,
      trace st1 = trace st0 ++ more -> quiet more ->
      connections st1 = connections st ->
      get_connections st1 = get_connections st ->
      run_inv p ws st0 (fst (leave_loop ws n b e st1))
        (snd (leave_loop ws n b e st1))).
    { intros e st1 more Htr1 Hq1 Hc1 Hg1. simpl.
      eexists. split; [rewrite Htr1, <- !app_assoc; reflexivity|].
      split; [|split].
      - apply quiet_app; [exact Hq1|].
        apply quiet_app; intros bot; destruct e; reflexivity.
      - rewrite Hc1. exact Hc.
      - rewrite Hg1. exact Hg. }
    destruct a as [data | e |]; simpl.
    + destruct (json_loads py data) as [json_data|e].
      * pose proof (json_to_event_quiet json_data (Some n)) as Hqe.
        destruct (json_to_event json_data (Some n)) as [evs [[ev|]|e]];
          simpl in *.
        -- eexists. split; [rewrite Htr, <- !app_assoc; reflexivity|].
           split; [|split; assumption].
           apply quiet_app; [exact Hq|].
           apply quiet_app; [exact Hqe|]. intros bot. reflexivity.
        -- eexists. split; [rewrite Htr, <- !app_assoc; reflexivity|].
           split; [|split; assumption].
           apply quiet_app; assumption.
        -- apply (Hleave e (emit evs st) (effs ++ evs)).
           ++ simpl. rewrite Htr, <- !app_assoc. reflexivity.
           ++ apply quiet_app; assumption.
           ++ reflexivity.
           ++ reflexivity.
      * apply (Hleave e st effs); auto.
    + apply (Hleave e st effs); auto.
    + eexists. split; [rewrite Htr, <- !app_assoc; reflexivity|].
      split; [|split; assumption].
      apply quiet_app; [exact Hq|]. intros bot. reflexivity.
  - destruct a; simpl; try exact I; destruct c; exact I.
Qed.

Lemma resume_all_inv (p : package) (ws : WebSocket) (st0 : state)
  (answers : list answer) (at_pc : pc) (st : state) :
  run_inv p ws st0 at_pc st ->
  run_inv p ws st0 (fst (resume_all p ws at_pc answers st))
    (snd (resume_all p ws at_pc answers st)).
Proof.
  revert at_pc st. induction answers as [|a l IH]; intros at_pc st Hinv;
    simpl; [exact Hinv|].
  pose proof (resume_inv p ws st0 at_pc a st Hinv) as Hstep.
  destruct (resume p ws at_pc a st) as [next st']. apply IH. exact Hstep.
Qed.

Lemma handle_ws_inv (p : package) (ws : WebSocket) (answers : list answer)
  (st : state) :
  run_inv p ws st (fst (handle_ws p ws answers st))
    (snd (handle_ws p ws answers st)).
Proof.
  unfold handle_ws. pose proof (handshake_inv p ws st) as Hh.
  destruct (handshake p ws st) as [first st']. apply resume_all_inv.
  exact Hh.
Qed.

(** An empty identity header is rejected by both packages. *)
Lemma empty_header_rejected (p : package) (id : nat) (st : state) :
  let ws := {| ws_id := id; x_self_name := Some EmptyString |} in
  handshake p ws st
  = (AwaitReject,
     emit [Log WARNING MissingHeader None; Close ws 1008 (missing_reason p)]
       st).
Proof. destruct p; reflexivity. Qed.


Lemma emit_nil (st : state) : emit [] st = st.
Proof. destruct st. unfold emit. simpl. rewrite app_nil_r. reflexivity. Qed.

(** Whatever ends the receive loop (the peer's close, another exception
    of [receive], the cancellation of the task, a text on which
    [json.loads] raises), the coroutine goes to its [finally] clause. *)
Lemma loop_end_reaches_finally (ws : WebSocket) (self_name : string)
  (bot : Bot) (a : answer) (st : state) :
  match a with
  | Resumed data => ~ returned (json_loads py data)
  | Thrown _ | Cancel => True
  end ->
  exists cancelled st1,
    after_receive ws self_name bot a st
    = (AwaitClose self_name bot cancelled, st1).
Proof.
  intros Hend. destruct a as [data|e|]; simpl.
  - destruct (json_loads py data) as [j|e]; [destruct Hend; exact I|].
    eexists. eexists. reflexivity.
  - eexists. eexists. reflexivity.
  - eexists. eexists. reflexivity.
Qed.

Lemma for_models_decoding (g : gen model) (members : list (string * json)) :
  Forall decoding_effect (fst (for_models g members)).
Proof.
  induction g as [| e | m rest IH]; simpl.
  - repeat constructor.
  - constructor.
  - destruct (parse_obj m members) as [ev|e]; [repeat constructor|].
    destruct (for_models rest members) as [effs r]. simpl in *.
    repeat constructor. exact IH.
Qed.

Lemma json_to_event_decoding (json_data : json) (self_name : option string) :
  Forall decoding_effect (fst (json_to_event json_data self_name)).
Proof.
  destruct json_data; simpl; try constructor.
  pose proof (for_models_decoding (get_event_model members) members) as Hdec.
  destruct (for_models (get_event_model members) members) as [effs [ev|e]];
    simpl in *; [exact Hdec|].
  apply Forall_app. split; [exact Hdec|]. repeat constructor.
Qed.

(** A frame on which [json.loads] returns never ends the receive loop:
    whether it decodes to an event or not, the coroutine awaits the next
    frame; all it does is log, call [parse_obj] and create the task of
    the event, so nothing is closed and nothing disconnected, and the
    registry is as it was. *)
Lemma json_frame_keeps_loop (ws : WebSocket) (self_name : string) (bot : Bot)
  (data : string) (json_data : json) (st : state) :
  json_loads py data = Ret json_data ->
  exists effs,
    after_receive ws self_name bot (Resumed data) st
    = (AwaitReceive self_name bot, emit effs st)
    /\ Forall decoding_effect effs
    /\ quiet effs.
Proof.
  intros Hjson. unfold after_receive. rewrite Hjson.
  pose proof (json_to_event_quiet json_data (Some self_name)) as Hq.
  pose proof (json_to_event_decoding json_data (Some self_name)) as Hdec.
  pose proof (json_to_event_returns json_data (Some self_name)) as Hret.
  destruct (json_to_event json_data (Some self_name)) as [effs [[ev|]|e]];
    simpl in *.
  - eexists. split; [reflexivity|]. split.
    + apply Forall_app. split; [exact Hdec|]. repeat constructor.
    + apply quiet_app; [exact Hq|]. intros b. reflexivity.
  - exists effs. split; [reflexivity|]. split; assumption.
  - destruct Hret.
Qed.

(** A frame on which [json.loads] returns a value that is no object is
    passed over in silence: no log, no task, and the next frame is
    awaited. *)
Lemma non_object_frame_ignored (ws : WebSocket) (self_name : string)
  (bot : Bot) (data : string) (json_data : json) (st : state) :
  json_loads py data = Ret json_data ->
  is_dict json_data = false ->
  after_receive ws self_name bot (Resumed data) st
  = (AwaitReceive self_name bot, st).
Proof.
  intros Hjson Hnot. unfold after_receive. rewrite Hjson.
  destruct json_data; simpl in Hnot; try discriminate; simpl;
    rewrite emit_nil; reflexivity.
Qed.

(** C2, where the code departs from it: in the [nonebot.adapters.spigot]
    package a request without the header makes the first line raise
    [AttributeError], before the guard that would reject it: nothing is
    logged and no close is sent.  The [nonebot.adapter.spigot] package
    rejects the same request with code 1008. *)
Theorem C2_absent_header_raises (id : nat) (answers : list answer)
  (st : state) :
  let ws := {| ws_id := id; x_self_name := None |} in
  handle_ws adapters_spigot ws answers st = (Raised AttributeError, st)
  /\ handshake adapter_spigot ws st
     = (AwaitReject,
        emit [Log WARNING MissingHeader None;
              Close ws 1008 "Missing X-Self-ID Header"] st).
Proof.
  split; [|reflexivity].
  unfold handle_ws. cbn [handshake read_self_name x_self_name].
  apply resume_all_finished. reflexivity.
Qed.

Lemma handshake_ok (p : package) (ws : WebSocket) (st : state) :
  consistent st ->
  pc_ok (fst (handshake p ws st)) /\ consistent (snd (handshake p ws st)).
Proof.
  intros Hcons. unfold handshake.
  destruct (read_self_name p ws) as [[[|c s]|]|e]; simpl;
    try (split; [exact I|exact Hcons]).
  destruct (bots st !! String c s); simpl; split;
    try exact Hcons; [exact I|discriminate].
Qed.

Lemma consistent_register (p : package) (ws : WebSocket)
  (self_name : string) (st : state) :
  self_name <> EmptyString ->
  consistent st ->
  consistent (bot_connect {| self_id := self_name |}
                (register p self_name ws st)).
Proof.
  intros Hne [Hdom Hempty]. split; simpl.
  - rewrite !dom_insert_L, Hdom. reflexivity.
  - rewrite lookup_insert_ne by exact Hne. exact Hempty.
Qed.

Lemma consistent_cleanup (self_name : string) (bot : Bot) (st : state) :
  self_id bot = self_name ->
  consistent st ->
  consistent (bot_disconnect bot (unregister self_name st)).
Proof.
  intros Hid [Hdom Hempty]. split; simpl.
  - rewrite Hid, !dom_delete_L, Hdom. reflexivity.
  - rewrite lookup_delete. case_decide; [reflexivity|exact Hempty].
Qed.

Lemma resume_ok (p : package) (ws : WebSocket) (at_pc : pc) (a : answer)
  (st : state) :
  pc_ok at_pc -> consistent st ->
  pc_ok (fst (resume p ws at_pc a st))
  /\ consistent (snd (resume p ws at_pc a st)).
Proof.
  intros Hpc Hcons.
  destruct at_pc as [| n | n b | n b c | | |]; simpl in *;
    try (split; [exact I|exact Hcons]).
  - destruct a; simpl; split; solve [exact I | exact Hcons].
  - destruct a; simpl; try (split; [exact I|exact Hcons]).
    split; [split; [reflexivity|exact Hpc]|].
    apply (consistent_register p ws n st Hpc Hcons).
  - unfold after_receive, leave_loop, enter_finally.
    destruct a as [data|e|]; simpl; try (split; [exact Hpc|exact Hcons]).
    destruct (json_loads py data) as [j|e]; simpl;
      [|split; [exact Hpc|exact Hcons]].
    destruct (json_to_event j (Some n)) as [effs [[ev|]|e]]; simpl;
      split; solve [exact Hpc | exact Hcons].
  - destruct Hpc as [Hid Hne].
    destruct a; simpl; try (split; [exact I|exact Hcons]);
      (split; [destruct c; exact I|]);
      apply (consistent_cleanup n b st Hid Hcons).
Qed.

Lemma loop_step_inv (p : package) (l : loop) (t : turn) :
  loop_inv l -> loop_inv (loop_step p l t).
Proof.
  intros [Hcons Htasks]. destruct t as [ws | id a]; simpl.
  - destruct (tasks l !! ws_id ws) eqn:Hold; [split; assumption|].
    destruct (handshake_ok p ws (world l) Hcons) as [Hpc Hcons'].
    destruct (handshake p ws (world l)) as [next st']. simpl in *.
    split; [exact Hcons'|]. intros id ws' at_pc Hlook. simpl in Hlook.
    destruct (decide (ws_id ws = id)) as [<-|Hother].
    + rewrite lookup_insert_eq in Hlook. congruence.
    + rewrite lookup_insert_ne in Hlook by exact Hother. eauto.
  - destruct (tasks l !! id) as [[ws at_pc]|] eqn:Hold; [|split; assumption].
    destruct (resume_ok p ws at_pc a (world l) (Htasks id ws at_pc Hold) Hcons)
      as [Hpc Hcons'].
    destruct (resume p ws at_pc a (world l)) as [next st']. simpl in *.
    split; [exact Hcons'|]. intros id' ws' at_pc' Hlook. simpl in Hlook.
    destruct (decide (id = id')) as [<-|Hother].
    + rewrite lookup_insert_eq in Hlook. congruence.
    + rewrite lookup_insert_ne in Hlook by exact Hother. eauto.
Qed.

(** On the event loop, whatever the order of its turns, the registry and
    the bots hold the same identities, none of them empty. *)
Lemma run_loop_consistent (p : package) (turns : list turn) :
  consistent (world (run_loop p turns empty_loop)).
Proof.
  assert (Hgen : forall l, loop_inv l -> loop_inv (run_loop p turns l)).
  { induction turns as [|t turns IH]; intros l Hl; simpl; [exact Hl|].
    apply IH. apply loop_step_inv. exact Hl. }
  apply Hgen. split.
  - split; reflexivity.
  - intros id ws at_pc Hlook. simpl in Hlook.
    rewrite lookup_empty in Hlook. discriminate.
Qed.

(** C4: when the identity a connection presents is registered already,
    the connection is rejected: the only effects are the warning and the
    close with code 1008 and the duplicate reason, and the registry keeps
    the entry of the connection that holds the identity. *)
Theorem C4_duplicate_identity_rejected (p : package) (ws old : WebSocket)
  (self_name : string) (answers : list answer) (st : state) :
  consistent st ->
  connections st !! self_name = Some old ->
  read_self_name p ws = Ret (Some self_name) ->
  exists last : pc,
    handle_ws p ws answers st
    = (last,
       emit [Log WARNING (AlreadyABot self_name) None;
             Close ws 1008 (duplicate_reason p)] st)
    /\ (last = AwaitReject \/ finished last = true)
    /\ connections (snd (handle_ws p ws answers st)) !! self_name = Some old
    /\ bots (snd (handle_ws p ws answers st)) = bots st.
Proof.
  intros [Hdom Hempty] Hreg Hname.
  assert (Hbot : is_Some (bots st !! self_name)).
  { apply elem_of_dom. rewrite <- Hdom. apply elem_of_dom. eauto. }
  destruct Hbot as [b Hb].
  assert (Hshake : handshake p ws st
                   = (AwaitReject,
                      emit [Log WARNING (AlreadyABot self_name) None;
                            Close ws 1008 (duplicate_reason p)] st)).
  { unfold handshake. rewrite Hname.
    destruct self_name as [|c s]; [congruence|]. simpl. rewrite Hb.
    reflexivity. }
  unfold handle_ws. rewrite Hshake.
  destruct answers as [|a later].
  - exists AwaitReject. simpl. auto.
  - exists (fst (after_reject a
              (emit [Log WARNING (AlreadyABot self_name) None;
                     Close ws 1008 (duplicate_reason p)] st))).
    cbn [resume_all resume].
    destruct a; cbn [after_reject fst];
      rewrite resume_all_finished by reflexivity; simpl; auto.
Qed.

(** C5, where the code departs from it: two connections that present
    the same identity, the second arriving while the first awaits
    [websocket.accept()].  Both pass the duplicate check and are
    accepted; no close with code 1008 is sent; the second registration
    replaces the entry of the first; and when the first connection ends,
    its cleanup removes the entry of the second, which is still
    receiving. *)
Theorem C5_check_then_await_race (p : package) :
  let both :=
    run_loop p
      [Connect first_ws; Connect second_ws;
       Wake 1 (Resumed EmptyString); Wake 2 (Resumed EmptyString)]
      empty_loop in
  let after :=
    run_loop p
      [Wake 1 (Thrown WebSocketClosed); Wake 1 (Resumed EmptyString)] both in
  tasks both !! 1 = Some (first_ws, AwaitReceive "Bot1" bot1)
  /\ tasks both !! 2 = Some (second_ws, AwaitReceive "Bot1" bot1)
  /\ trace (world both)
     = [Accept first_ws; Accept second_ws;
        BotConnect bot1; Log INFO (BotConnected "Bot1") None;
        BotConnect bot1; Log INFO (BotConnected "Bot1") None]
  /\ connections (world both) !! "Bot1" = Some second_ws
  /\ tasks after !! 2 = Some (second_ws, AwaitReceive "Bot1" bot1)
  /\ connections (world after) !! "Bot1" = None
  /\ bots (world after) !! "Bot1" = None.
Proof.
  destruct p; vm_compute; repeat split.
Qed.

(** In the [nonebot.adapters.spigot] package the block after the accept
    makes the entry in both maps. *)
Lemma accept_registers_both (ws : WebSocket) (self_name data : string)
  (st : state) :
  let st1 :=
    snd (after_accept adapters_spigot ws self_name (Resumed data) st) in
  connections st1 !! self_name = Some ws
  /\ get_connections st1 !! self_name = Some ws.
Proof. simpl. split; apply lookup_insert_eq. Qed.

(** C10: in the [nonebot.adapters.spigot] package, when the receive
    loop of a connection ends, both [self.connections] and
    [get_connections] hold the entry that the handshake made; the
    cleanup removes the one of [self.connections] and leaves the one of
    [get_connections] behind. *)
Theorem C10_get_connections_entry_stays (ws : WebSocket)
  (answers : list answer) (st st1 : state) (self_name : string) (bot : Bot)
  (cancelled : bool) (a : answer) :
  handle_ws adapters_spigot ws answers st
  = (AwaitClose self_name bot cancelled, st1) ->
  a <> Cancel ->
  connections st1 !! self_name = Some ws
  /\ get_connections st1 !! self_name = Some ws
  /\ exists (last : pc) (st' : state),
       handle_ws adapters_spigot ws (answers ++ [a]) st = (last, st')
       /\ finished last = true
       /\ connections st' !! self_name = None
       /\ get_connections st' !! self_name = Some ws.
Proof.
  intros Hrun Hlive.
  pose proof (handle_ws_inv adapters_spigot ws answers st) as Hinv.
  rewrite Hrun in Hinv. simpl in Hinv.
  destruct Hinv as [effs [_ [_ [Hc Hg]]]].
  specialize (Hg eq_refl).
  split; [exact Hc|]. split; [exact Hg|].
  exists (if cancelled then Cancelled else Returned),
    (bot_disconnect bot (unregister self_name st1)).
  split; [|split; [|split]].
  - unfold handle_ws in *.
    destruct (handshake adapters_spigot ws st) as [first st0].
    rewrite resume_all_app, Hrun. simpl.
    destruct a; try reflexivity. congruence.
  - destruct cancelled; reflexivity.
  - simpl. apply lookup_delete_eq.
  - simpl. exact Hg.
Qed.

(** ** What a connection touches *)

Lemma emit_emit (e1 e2 : list effect) (st : state) :
  emit e2 (emit e1 st) = emit (e1 ++ e2) st.
Proof. unfold emit. simpl. rewrite app_assoc. reflexivity. Qed.

Lemma same_at_refl (k : string) (st : state) : same_at k st st.
Proof. repeat split. Qed.

Lemma for_models_own (ws : WebSocket) (name : option string)
  (g : gen model) (members : list (string * json)) :
  Forall (own_effect ws name) (fst (for_models g members)).
Proof.
  induction g as [| e | m rest IH]; simpl.
  - repeat constructor.
  - constructor.
  - destruct (parse_obj m members) as [ev|e]; [repeat constructor|].
    destruct (for_models rest members) as [effs r]. simpl in *.
    repeat constructor. exact IH.
Qed.

Lemma json_to_event_own (ws : WebSocket) (name : option string)
  (json_data : json) (self_name : option string) :
  Forall (own_effect ws name) (fst (json_to_event json_data self_name)).
Proof.
  destruct json_data; simpl; try constructor.
  pose proof (for_models_own ws name (get_event_model members) members)
    as Hown.
  destruct (for_models (get_event_model members) members) as [effs [ev|e]];
    simpl in *; [exact Hown|].
  apply Forall_app. split; [exact Hown|]. repeat constructor.
Qed.

(** A block that only emits effects of the connection keeps what holds
    of it. *)
Lemma handled_emit (p : package) (ws : WebSocket) (st0 : state)
  (at_pc next : pc) (effs : list effect) (st : state) :
  handled p ws st0 at_pc st ->
  Forall (own_effect ws (identity p ws)) effs ->
  stands_for p ws next ->
  holds_entries p ws next st ->
  handled p ws st0 next (emit effs st).
Proof.
  intros [_ [_ [Hframe [old [Htr Hown]]]]] Hnew Hst Hhold.
  split; [exact Hst|]. split.
  { destruct next; exact Hhold. }
  split; [exact Hframe|].
  exists (old ++ effs). split.
  - simpl. rewrite Htr, <- app_assoc. reflexivity.
  - apply Forall_app. split; assumption.
Qed.

Lemma handled_stay (p : package) (ws : WebSocket) (st0 : state)
  (at_pc next : pc) (st : state) :
  handled p ws st0 at_pc st ->
  finished next = true ->
  handled p ws st0 next st.
Proof.
  intros [_ [_ [Hframe Htrace]]] Hfin.
  destruct next; try discriminate;
    (split; [exact I|]; split; [exact I|]; split; assumption).
Qed.

Lemma handshake_handled (p : package) (ws : WebSocket) (st : state) :
  handled p ws st (fst (handshake p ws st)) (snd (handshake p ws st)).
Proof.
  assert (Hstart : handled p ws st AwaitReject st).
  { split; [exact I|]. split; [exact I|].
    split; [intros k _; apply same_at_refl|].
    exists []. split; [rewrite app_nil_r; reflexivity|constructor]. }
  unfold handshake, identity.
  destruct (read_self_name p ws) as [[[|c s]|]|e] eqn:Hread; simpl.
  - apply (handled_emit p ws st AwaitReject); try exact I; [exact Hstart|].
    repeat constructor.
  - destruct (bots st !! String c s); simpl.
    + apply (handled_emit p ws st AwaitReject); try exact I;
        [exact Hstart|]. repeat constructor.
    + apply (handled_emit p ws st AwaitReject); try exact I;
        [exact Hstart| |].
      * repeat constructor.
      * simpl. unfold identity. rewrite Hread. reflexivity.
  - apply (handled_emit p ws st AwaitReject); try exact I; [exact Hstart|].
    repeat constructor.
  - apply (handled_stay p ws st AwaitReject); [exact Hstart|reflexivity].
Qed.

Lemma resume_handled (p : package) (ws : WebSocket) (st0 : state)
  (at_pc : pc) (a : answer) (st : state) :
  handled p ws st0 at_pc st ->
  handled p ws st0 (fst (resume p ws at_pc a st))
    (snd (resume p ws at_pc a st)).
Proof.
  intros Hall. pose proof Hall as [Hst [Hhold [Hframe [old [Htr Hown]]]]].
  destruct at_pc as [| n | n b | n b c | | |]; simpl; try exact Hall.
  - destruct a; simpl; apply (handled_stay p ws st0 AwaitReject);
      solve [exact Hall | reflexivity].
  - destruct a as [data|e|]; simpl;
      try (apply (handled_stay p ws st0 (AwaitAccept n));
           solve [exact Hall | reflexivity]).
    simpl in Hst. split; [split; [exact Hst|reflexivity]|].
    split; [|split].
    + simpl. rewrite !lookup_insert_eq. split; [reflexivity|].
      split; [reflexivity|]. intros ->. apply lookup_insert_eq.
    + intros k Hk. destruct (Hframe k Hk) as [Hc [Hg Hb]].
      assert (Hne : n <> k) by (intros ->; apply Hk; exact Hst).
      repeat split; simpl.
      * rewrite lookup_insert_ne by exact Hne. exact Hc.
      * destruct p; [exact Hg|].
        rewrite lookup_insert_ne by exact Hne. exact Hg.
      * rewrite lookup_insert_ne by exact Hne. exact Hb.
    + exists (old ++ [BotConnect {| self_id := n |};
                      Log INFO (BotConnected n) None]).
      split; [simpl; rewrite Htr, <- !app_assoc; reflexivity|].
      apply Forall_app. split; [exact Hown|].
      repeat constructor. simpl. symmetry. exact Hst.
  - assert (Hleave : forall e effs,
      Forall (own_effect ws (identity p ws)) effs ->
      handled p ws st0 (fst (leave_loop ws n b e (emit effs st)))
        (snd (leave_loop ws n b e (emit effs st)))).
    { intros e effs Heffs. unfold leave_loop, enter_finally. simpl fst.
      simpl snd. rewrite !emit_emit.
      apply (handled_emit p ws st0 (AwaitReceive n b)); try assumption.
      apply Forall_app. split; [exact Heffs|].
      repeat constructor; destruct e; exact I. }
    destruct a as [data|e|]; simpl.
    + destruct (json_loads py data) as [json_data|e].
      * pose proof (json_to_event_own ws (identity p ws) json_data (Some n))
          as Hdec.
        destruct (json_to_event json_data (Some n)) as [effs [[ev|]|e]];
          simpl in *.
        -- apply (handled_emit p ws st0 (AwaitReceive n b));
             try assumption.
           apply Forall_app. split; [exact Hdec|].
           repeat constructor. simpl. destruct Hst as [-> ->]. reflexivity.
        -- apply (handled_emit p ws st0 (AwaitReceive n b)); assumption.
        -- apply (Hleave e effs Hdec).
      * specialize (Hleave e [] (List.Forall_nil _)).
        rewrite emit_nil in Hleave. exact Hleave.
    + specialize (Hleave e [] (List.Forall_nil _)).
      rewrite emit_nil in Hleave. exact Hleave.
    + unfold enter_finally. simpl.
      apply (handled_emit p ws st0 (AwaitReceive n b)); try assumption.
      repeat constructor.
  - destruct a as [data|e|]; simpl;
      try (apply (handled_stay p ws st0 (AwaitClose n b c));
           solve [exact Hall | reflexivity]);
      (split; [destruct c; exact I|]; split; [destruct c; exact I|];
       split;
       [intros k Hk; destruct (Hframe k Hk) as [Hc [Hg Hb]];
        destruct Hst as [Hid ->];
        assert (Hne : n <> k) by (intros ->; apply Hk; exact Hid);
        repeat split; simpl;
        [rewrite lookup_delete_ne by exact Hne; exact Hc
        |exact Hg
        |rewrite lookup_delete_ne by exact Hne; exact Hb]
       |exists (old ++ [BotDisconnect b]);
        split; [simpl; rewrite Htr, <- app_assoc; reflexivity|];
        apply Forall_app; split; [exact Hown|];
        repeat constructor; simpl; destruct Hst as [-> ->]; reflexivity]).
Qed.

Lemma resume_all_handled (p : package) (ws : WebSocket) (st0 : state)
  (answers : list answer) (at_pc : pc) (st : state) :
  handled p ws st0 at_pc st ->
  handled p ws st0 (fst (resume_all p ws at_pc answers st))
    (snd (resume_all p ws at_pc answers st)).
Proof.
  revert at_pc st. induction answers as [|a l IH]; intros at_pc st Hall;
    simpl; [exact Hall|].
  pose proof (resume_handled p ws st0 at_pc a st Hall) as Hstep.
  destruct (resume p ws at_pc a st) as [next st']. apply IH. exact Hstep.
Qed.

Lemma handle_ws_handled (p : package) (ws : WebSocket)
  (answers : list answer) (st : state) :
  handled p ws st (fst (handle_ws p ws answers st))
    (snd (handle_ws p ws answers st)).
Proof.
  unfold handle_ws. pose proof (handshake_handled p ws st) as Hh.
  destruct (handshake p ws st) as [first st']. apply resume_all_handled.
  exact Hh.
Qed.

(** However long a connection lives and however it ends, its handler
    leaves the entries of every other identity in [self.connections],
    [get_connections] and [self.bots] as they were; a connection that
    presents no identity leaves all of them. *)
Theorem handler_keeps_to_its_identity (p : package) (ws : WebSocket)
  (answers : list answer) (st : state) (other : string) :
  identity p ws <> Some other ->
  same_at other st (snd (handle_ws p ws answers st)).
Proof.
  intros Hother.
  destruct (handle_ws_handled p ws answers st) as [_ [_ [Hframe _]]].
  apply Hframe. exact Hother.
Qed.

(** The handler only adds to the effects, and what it adds is its own:
    it accepts and closes no websocket but its own, and connects,
    disconnects and creates tasks for no bot but the one of its
    identity. *)
Theorem handler_effects_are_its_own (p : package) (ws : WebSocket)
  (answers : list answer) (st : state) :
  exists effs,
    trace (snd (handle_ws p ws answers st)) = trace st ++ effs
    /\ Forall (own_effect ws (identity p ws)) effs.
Proof.
  destruct (handle_ws_handled p ws answers st) as [_ [_ [_ Htrace]]].
  exact Htrace.
Qed.

(** While a connection handled alone awaits a frame, it stands for the
    identity its header presents, [Adapter.get_connections()] maps that
    identity to its websocket and [self.bots] to its bot. *)
Theorem receiving_connection_is_registered (p : package) (ws : WebSocket)
  (answers : list answer) (st st' : state) (self_name : string) (bot : Bot) :
  handle_ws p ws answers st = (AwaitReceive self_name bot, st') ->
  identity p ws = Some self_name
  /\ bot = {| self_id := self_name |}
  /\ Adapter_get_connections st' !! self_name = Some ws
  /\ bots st' !! self_name = Some bot.
Proof.
  intros Hrun. pose proof (handle_ws_handled p ws answers st) as Hall.
  rewrite Hrun in Hall. destruct Hall as [[Hid Hbot] [[Hc [Hb _]] _]].
  repeat split; assumption.
Qed.

(** ** Events in the order of their frames *)

Lemma created_app (l1 l2 : list effect) :
  created (l1 ++ l2) = created l1 ++ created l2.
Proof.
  induction l1 as [|e l1 IH]; simpl; [reflexivity|].
  destruct e; simpl; rewrite ?IH; reflexivity.
Qed.

Lemma for_models_creates_nothing (g : gen model)
  (members : list (string * json)) :
  created (fst (for_models g members)) = [].
Proof.
  induction g as [| e | m rest IH]; simpl; try reflexivity.
  destruct (parse_obj m members) as [ev|e]; [reflexivity|].
  destruct (for_models rest members) as [effs r]. exact IH.
Qed.

Lemma json_to_event_creates_nothing (json_data : json)
  (self_name : option string) :
  created (fst (json_to_event json_data self_name)) = [].
Proof.
  destruct json_data; simpl; try reflexivity.
  pose proof (for_models_creates_nothing (get_event_model members) members)
    as Hnone.
  destruct (for_models (get_event_model members) members) as [effs [ev|e]];
    simpl in *; [exact Hnone|].
  rewrite created_app, Hnone. reflexivity.
Qed.

(** One frame on which [json.loads] returns: the task created is the
    one of the event it decodes to. *)
Lemma json_frame_creates (ws : WebSocket) (self_name : string) (bot : Bot)
  (data : string) (st : state) :
  returned (json_loads py data) ->
  exists effs,
    after_receive ws self_name bot (Resumed data) st
    = (AwaitReceive self_name bot, emit effs st)
    /\ created effs = option_list (decoded self_name data).
Proof.
  intros Hjson. unfold after_receive, decoded.
  destruct (json_loads py data) as [json_data|e]; [|destruct Hjson].
  pose proof (json_to_event_creates_nothing json_data (Some self_name))
    as Hnone.
  pose proof (json_to_event_returns json_data (Some self_name)) as Hret.
  destruct (json_to_event json_data (Some self_name)) as [effs [[ev|]|e]];
    simpl in *.
  - eexists. split; [reflexivity|].
    rewrite created_app, Hnone. reflexivity.
  - exists effs. split; [reflexivity|exact Hnone].
  - destruct Hret.
Qed.

(** Frames on all of which [json.loads] returns are decoded in the order
    of their arrival: the tasks created are those of the events the
    frames decode to, in that order, one for each frame that decodes to
    an event, and the connection awaits the next frame. *)
Theorem tasks_in_arrival_order (p : package) (ws : WebSocket)
  (self_name : string) (bot : Bot) (frames : list string) (st : state) :
  Forall (fun data => returned (json_loads py data)) frames ->
  exists effs,
    resume_all p ws (AwaitReceive self_name bot) (map Resumed frames) st
    = (AwaitReceive self_name bot, emit effs st)
    /\ created effs = omap (decoded self_name) frames.
Proof.
  intros Hframes. revert st.
  induction Hframes as [|data frames Hjson _ IH]; intros st.
  - exists []. split; [simpl; rewrite emit_nil; reflexivity|reflexivity].
  - destruct (json_frame_creates ws self_name bot data st Hjson)
      as [first [Hstep Hfirst]].
    destruct (IH (emit first st)) as [rest [Hrun Hrest]].
    exists (first ++ rest). split.
    + cbn [map resume_all resume]. rewrite Hstep, Hrun, emit_emit.
      reflexivity.
    + rewrite created_app, Hfirst, Hrest. simpl.
      destruct (decoded self_name data); reflexivity.
Qed.

(** ** Coming back, and not getting out *)

Lemma handshake_fresh (p : package) (ws : WebSocket) (self_name : string)
  (st : state) :
  identity p ws = Some self_name ->
  bots st !! self_name = None ->
  handshake p ws st = (AwaitAccept self_name, emit [Accept ws] st).
Proof.
  unfold identity, handshake. intros Hid Hfree.
  destruct (read_self_name p ws) as [[[|c s]|]|e]; try discriminate.
  inversion Hid; subst. simpl. rewrite Hfree. reflexivity.
Qed.

Lemma handshake_taken (p : package) (ws : WebSocket) (self_name : string)
  (st : state) :
  identity p ws = Some self_name ->
  is_Some (bots st !! self_name) ->
  handshake p ws st
  = (AwaitReject,
     emit [Log WARNING (AlreadyABot self_name) None;
           Close ws 1008 (duplicate_reason p)] st).
Proof.
  unfold identity, handshake. intros Hid [b Hb].
  destruct (read_self_name p ws) as [[[|c s]|]|e]; try discriminate.
  inversion Hid; subst. simpl. rewrite Hb. reflexivity.
Qed.

Lemma handle_ws_snoc (p : package) (ws : WebSocket) (answers : list answer)
  (a : answer) (st : state) :
  handle_ws p ws (answers ++ [a]) st
  = resume p ws (fst (handle_ws p ws answers st)) a
      (snd (handle_ws p ws answers st)).
Proof.
  unfold handle_ws. destruct (handshake p ws st) as [first st0].
  rewrite resume_all_app.
  destruct (resume_all p ws first answers st0) as [mid st1]. simpl.
  destruct (resume p ws mid a st1). reflexivity.
Qed.

(** Once the cleanup of a connection is done, its identity is free
    again: a connection that presents it then passes the duplicate check
    and is accepted. *)
Theorem identity_free_after_cleanup (p : package) (ws next : WebSocket)
  (answers : list answer) (st st1 : state) (self_name : string) (bot : Bot)
  (cancelled : bool) (a : answer) :
  handle_ws p ws answers st = (AwaitClose self_name bot cancelled, st1) ->
  a <> Cancel ->
  identity p next = Some self_name ->
  let st' := snd (handle_ws p ws (answers ++ [a]) st) in
  bots st' !! self_name = None
  /\ handshake p next st' = (AwaitAccept self_name, emit [Accept next] st').
Proof.
  intros Hrun Hlive Hnext st'.
  pose proof (handle_ws_handled p ws answers st) as Hall.
  rewrite Hrun in Hall. destruct Hall as [[_ Hbot] _].
  assert (Hfree : bots st' !! self_name = None).
  { unfold st'. rewrite handle_ws_snoc, Hrun. subst bot.
    destruct a; simpl; try apply lookup_delete_eq. congruence. }
  split; [exact Hfree|]. apply handshake_fresh; assumption.
Qed.

(** Whatever answer of [receive] ends the loop, the coroutine stands at
    the close of its [finally] clause, and it has disconnected nothing
    on the way. *)
Lemma after_receive_leaves (ws : WebSocket) (self_name : string) (bot : Bot)
  (a : answer) (st : state) :
  fst (after_receive ws self_name bot a st) <> AwaitReceive self_name bot ->
  exists cancelled effs,
    after_receive ws self_name bot a st
    = (AwaitClose self_name bot cancelled, emit effs st)
    /\ quiet effs.
Proof.
  assert (Hleave : forall e effs,
    quiet effs ->
    exists cancelled effs',
      leave_loop ws self_name bot e (emit effs st)
      = (AwaitClose self_name bot cancelled, emit effs' st)
      /\ quiet effs').
  { intros e effs Hq. unfold leave_loop, enter_finally.
    exists false. eexists. rewrite !emit_emit. split; [reflexivity|].
    apply quiet_app; [exact Hq|]. intros b; destruct e; reflexivity. }
  unfold after_receive. destruct a as [data|e|].
  - destruct (json_loads py data) as [json_data|e].
    + pose proof (json_to_event_quiet json_data (Some self_name)) as Hq.
      destruct (json_to_event json_data (Some self_name))
        as [effs [[ev|]|e]]; simpl in *.
      * intros Hnot. destruct Hnot. reflexivity.
      * intros Hnot. destruct Hnot. reflexivity.
      * intros _. apply Hleave. exact Hq.
    + intros _. specialize (Hleave e [] quiet_nil).
      rewrite emit_nil in Hleave. exact Hleave.
  - intros _. specialize (Hleave e [] quiet_nil).
    rewrite emit_nil in Hleave. exact Hleave.
  - intros _. unfold enter_finally. exists true. eexists.
    split; [reflexivity|]. intros b. reflexivity.
Qed.

(** C3, where the code departs from it: a connection is active and an
    answer of [receive] ends its loop, whichever it is.  The coroutine
    then awaits the close of its [finally] clause.  When that close
    returns or raises an [Exception], the identity is removed from
    [self.connections] and from [self.bots], and [bot_disconnect] was
    called exactly once since the connection arrived.  When the task is
    cancelled during that close, [contextlib.suppress(Exception)] lets
    the cancellation through: the handler ends with the identity still
    in [self.connections] and in [self.bots], and [bot_disconnect] was
    not called. *)
Theorem C3_cleanup_after_loop (p : package) (ws : WebSocket)
  (answers : list answer) (st st1 : state) (self_name : string) (bot : Bot)
  (leave closed : answer) :
  handle_ws p ws answers st = (AwaitReceive self_name bot, st1) ->
  fst (resume p ws (AwaitReceive self_name bot) leave st1)
  <> AwaitReceive self_name bot ->
  exists (last : pc) (st' : state) (effs : list effect),
    handle_ws p ws (answers ++ [leave; closed]) st = (last, st')
    /\ finished last = true
    /\ trace st' = trace st ++ effs
    /\ match closed with
       | Cancel =>
           connections st' !! self_name = Some ws
           /\ bots st' !! self_name = Some bot
           /\ disconnects bot effs = 0
       | Resumed _ | Thrown _ =>
           connections st' !! self_name = None
           /\ bots st' !! self_name = None
           /\ disconnects bot effs = 1
       end.
Proof.
  intros Hrun Hends.
  pose proof (handle_ws_handled p ws answers st) as Hall.
  pose proof (handle_ws_inv p ws answers st) as Hinv.
  rewrite Hrun in Hall, Hinv. simpl in Hall, Hinv.
  destruct Hall as [[_ Hbot] [[Hc [Hb _]] _]].
  destruct Hinv as [effs0 [Htr [Hq0 _]]].
  destruct (after_receive_leaves ws self_name bot leave st1 Hends)
    as [cancelled [effs1 [Hleave Hq1]]].
  assert (Hmid : handle_ws p ws (answers ++ [leave]) st
                 = (AwaitClose self_name bot cancelled, emit effs1 st1)).
  { rewrite handle_ws_snoc, Hrun. exact Hleave. }
  assert (Hend : handle_ws p ws (answers ++ [leave; closed]) st
                 = after_close self_name bot cancelled closed
                     (emit effs1 st1)).
  { change [leave; closed] with ([leave] ++ [closed]).
    rewrite app_assoc, handle_ws_snoc, Hmid. reflexivity. }
  rewrite Hend.
  assert (Hzero : disconnects bot (effs0 ++ effs1) = 0).
  { rewrite disconnects_app, Hq0, Hq1. reflexivity. }
  assert (Hone : disconnects bot ((effs0 ++ effs1) ++ [BotDisconnect bot])
                 = 1).
  { rewrite disconnects_app, Hzero. unfold disconnects. simpl.
    rewrite String.eqb_refl. reflexivity. }
  assert (Hdone : exists last,
            (if cancelled then Cancelled else Returned) = last
            /\ finished last = true).
  { destruct cancelled; eexists; split; reflexivity. }
  destruct Hdone as [last [Hlast Hfin]].
  destruct closed as [data|e|]; simpl; rewrite ?Hlast.
  - exists last, (bot_disconnect bot (unregister self_name (emit effs1 st1))),
      ((effs0 ++ effs1) ++ [BotDisconnect bot]).
    split; [reflexivity|]. split; [exact Hfin|].
    split; [simpl; rewrite Htr, <- !app_assoc; reflexivity|].
    split; [simpl; apply lookup_delete_eq|].
    split; [simpl; subst bot; simpl; apply lookup_delete_eq|exact Hone].
  - exists last, (bot_disconnect bot (unregister self_name (emit effs1 st1))),
      ((effs0 ++ effs1) ++ [BotDisconnect bot]).
    split; [reflexivity|]. split; [exact Hfin|].
    split; [simpl; rewrite Htr, <- !app_assoc; reflexivity|].
    split; [simpl; apply lookup_delete_eq|].
    split; [simpl; subst bot; simpl; apply lookup_delete_eq|exact Hone].
  - exists Cancelled, (emit effs1 st1), (effs0 ++ effs1).
    split; [reflexivity|]. split; [reflexivity|].
    split; [simpl; rewrite Htr, <- !app_assoc; reflexivity|].
    split; [exact Hc|]. split; [exact Hb|exact Hzero].
Qed.

(** When the task is cancelled while the [finally] clause awaits its
    close, [contextlib.suppress(Exception)] lets the cancellation
    through and the cleanup is skipped: no [bot_disconnect] is called,
    the identity stays in [self.connections] and [self.bots], and every
    later connection that presents it is rejected as a duplicate. *)
Theorem cancelled_close_skips_cleanup (p : package) (ws next : WebSocket)
  (answers : list answer) (st st1 : state) (self_name : string) (bot : Bot)
  (cancelled : bool) :
  handle_ws p ws answers st = (AwaitClose self_name bot cancelled, st1) ->
  identity p next = Some self_name ->
  handle_ws p ws (answers ++ [Cancel]) st = (Cancelled, st1)
  /\ connections st1 !! self_name = Some ws
  /\ bots st1 !! self_name = Some bot
  /\ (exists effs, trace st1 = trace st ++ effs /\ disconnects bot effs = 0)
  /\ handshake p next st1
     = (AwaitReject,
        emit [Log WARNING (AlreadyABot self_name) None;
              Close next 1008 (duplicate_reason p)] st1).
Proof.
  intros Hrun Hnext.
  pose proof (handle_ws_handled p ws answers st) as Hall.
  pose proof (handle_ws_inv p ws answers st) as Hinv.
  rewrite Hrun in Hall, Hinv. simpl in Hinv, Hall.
  destruct Hall as [_ [[Hc [Hb _]] _]].
  destruct Hinv as [effs [Htr [Hq _]]].
  split; [rewrite handle_ws_snoc, Hrun; reflexivity|].
  split; [exact Hc|]. split; [exact Hb|].
  split; [exists effs; split; [exact Htr|apply Hq]|].
  apply handshake_taken; [exact Hnext|]. rewrite Hb. eauto.
Qed.

Lemma rejected_same_registry (p : package) (ws : WebSocket)
  (answers : list answer) (st st1 : state) :
  same_registry st st1 ->
  same_registry st (snd (resume_all p ws AwaitReject answers st1)).
Proof.
  intros Hsame. destruct answers as [|a later]; [exact Hsame|].
  cbn [resume_all resume].
  destruct a; simpl; rewrite resume_all_finished by reflexivity;
    exact Hsame.
Qed.

(** Until [websocket.accept()] has returned, the handler changes none
    of the three maps: not when it rejects the connection, not when the
    first line raises, not when the accept fails or is cancelled. *)
Theorem registry_untouched_until_accept (p : package) (ws : WebSocket)
  (answers : list answer) (st : state) :
  match fst (handshake p ws st), answers with
  | AwaitAccept _, Resumed _ :: _ => False
  | _, _ => True
  end ->
  same_registry st (snd (handle_ws p ws answers st)).
Proof.
  assert (Hrefl : forall effs, same_registry st (emit effs st))
    by (intros effs; repeat split).
  unfold handle_ws, handshake.
  destruct (read_self_name p ws) as [header|e]; simpl.
  - destruct (falsy header); simpl.
    + intros _. apply rejected_same_registry. apply Hrefl.
    + destruct (bots st !! default EmptyString header); simpl.
      * intros _. apply rejected_same_registry. apply Hrefl.
      * intros Hnot. destruct answers as [|[data|e|] later];
          [apply Hrefl|destruct Hnot| |];
          cbn [resume_all resume after_accept];
          rewrite resume_all_finished by reflexivity; apply Hrefl.
  - intros _. rewrite resume_all_finished by reflexivity. repeat split.
Qed.

(** ** The identity header under [unicode_escape] *)

Lemma latin1_low (c : ascii) :
  is_high_byte c = false -> utf8 (N_of_ascii c) = [c].
Proof.
  destruct c as [[] [] [] [] [] [] [] []]; intros H; try discriminate H;
    reflexivity.
Qed.

Lemma latin1_high (c : ascii) :
  is_high_byte c = true -> exists b1 b2, utf8 (N_of_ascii c) = [b1; b2].
Proof.
  destruct c as [[] [] [] [] [] [] [] []]; intros H; try discriminate H;
    eexists; eexists; reflexivity.
Qed.

Lemma string_of_chars_app_length (cs : list ascii) (rest : list ascii) :
  String.length (string_of_chars (cs ++ rest))
  = length cs + String.length (string_of_chars rest).
Proof.
  induction cs as [|c cs IH]; simpl; [reflexivity|]. rewrite IH.
  reflexivity.
Qed.

(** Where the codec finds no escape it never fails: every byte is read
    as a Latin-1 letter, which takes two bytes of the result when it is
    not ASCII. *)
Lemma escape_points_no_backslash (s : string) :
  no_backslash s = true ->
  exists ps,
    escape_points (unicode_name py) s = Ret ps
    /\ String.length (string_of_chars (concat (map utf8 ps)))
       = String.length s + high_bytes s
    /\ (high_bytes s = 0 -> string_of_chars (concat (map utf8 ps)) = s).
Proof.
  induction s as [|c s IH]; simpl.
  - intros _. exists []. repeat split.
  - unfold is_backslash. intros Hno.
    apply andb_true_iff in Hno. destruct Hno as [Hc Hs].
    destruct (IH Hs) as [ps [Hps [Hlen Hsame]]].
    exists (N_of_ascii c :: ps). rewrite Hc, Hps. simpl.
    split; [reflexivity|].
    destruct (is_high_byte c) eqn:Hhigh.
    + destruct (latin1_high c Hhigh) as [b1 [b2 ->]]. simpl.
      split; [rewrite Hlen; lia|]. discriminate.
    + rewrite (latin1_low c Hhigh). simpl.
      split; [rewrite Hlen; reflexivity|].
      intros Hzero. rewrite (Hsame Hzero). reflexivity.
Qed.

Lemma escape_points_dangling (s : string) :
  no_backslash s = true ->
  escape_points (unicode_name py) (s +:+ backslash)
  = Raise UnicodeDecodeError.
Proof.
  induction s as [|c s IH]; simpl; [reflexivity|].
  unfold is_backslash. intros Hno.
  apply andb_true_iff in Hno. destruct Hno as [Hc Hs].
  rewrite Hc. fold (s +:+ backslash). rewrite (IH Hs). reflexivity.
Qed.

(** An identity header without a backslash is never refused by the
    decoding of the [nonebot.adapters.spigot] package, but it is the
    identity that the [nonebot.adapter.spigot] package reads only when
    it is ASCII: every other byte of it becomes two. *)
Theorem escape_free_header (ws : WebSocket) (header : string) :
  x_self_name ws = Some header ->
  no_backslash header = true ->
  exists decoded_name,
    read_self_name adapters_spigot ws = Ret (Some decoded_name)
    /\ String.length decoded_name
       = String.length header + high_bytes header
    /\ (read_self_name adapters_spigot ws = read_self_name adapter_spigot ws
        <-> plain header = true).
Proof.
  intros Hheader Hno.
  destruct (escape_points_no_backslash header Hno)
    as [ps [Hps [Hlen Hsame]]].
  exists (string_of_chars (concat (map utf8 ps))).
  assert (Hread : read_self_name adapters_spigot ws
                  = Ret (Some (string_of_chars (concat (map utf8 ps))))).
  { unfold read_self_name, unicode_escape. rewrite Hheader, Hps.
    reflexivity. }
  split; [exact Hread|]. split; [exact Hlen|].
  rewrite Hread. unfold read_self_name, plain. rewrite Hheader, Hno.
  simpl. split.
  - intros Heq.
    assert (Htext : string_of_chars (concat (map utf8 ps)) = header)
      by congruence.
    rewrite Htext in Hlen. apply Nat.eqb_eq. lia.
  - intros Hzero. apply Nat.eqb_eq in Hzero. rewrite (Hsame Hzero).
    reflexivity.
Qed.

(** An identity header that ends in a lone backslash makes the first
    line of the [nonebot.adapters.spigot] handler raise
    [UnicodeDecodeError]: the connection is neither rejected with a close
    nor accepted, and nothing is logged.  The [nonebot.adapter.spigot]
    package takes the same text as the identity. *)
Theorem dangling_backslash_raises (ws : WebSocket) (header : string)
  (answers : list answer) (st : state) :
  x_self_name ws = Some (header +:+ backslash) ->
  no_backslash header = true ->
  handle_ws adapters_spigot ws answers st = (Raised UnicodeDecodeError, st)
  /\ read_self_name adapter_spigot ws = Ret (Some (header +:+ backslash)).
Proof.
  intros Hheader Hno. split.
  - unfold handle_ws, handshake, read_self_name, unicode_escape.
    rewrite Hheader, (escape_points_dangling header Hno). simpl.
    apply resume_all_finished. reflexivity.
  - unfold read_self_name. rewrite Hheader. reflexivity.
Qed.

(** ** The Collator that raises *)

Lemma for_models_raise (pre : list model) (e : exc)
  (members : list (string * json)) :
  Forall (fun m' => ~ returned (parse_obj m' members)) pre ->
  exists effs,
    for_models (gen_app pre (GRaise e)) members = (effs, Raise e)
    /\ parse_calls effs = pre.
Proof.
  intros Hpre. induction Hpre as [|m' pre' Hfail _ IH]; simpl.
  - exists []. split; reflexivity.
  - destruct (parse_obj m' members) as [ev'|e'] eqn:Hp.
    + exfalso. apply Hfail. exact I.
    + destruct IH as [effs [Hrun Hcalls]]. rewrite Hrun.
      eexists. split; [reflexivity|]. simpl. rewrite Hcalls. reflexivity.
Qed.

(** When the generator of the Collator raises after candidates that all
    failed, [json_to_event] logs the failure at ERROR level and returns
    [None]; the [else] branch is skipped, so the payload is not parsed as
    the base [Event]. *)
Theorem collator_exception_skips_fallback (members : list (string * json))
  (self_name : option string) (pre : list model) (e : exc) :
  get_event_model members = gen_app pre (GRaise e) ->
  Forall (fun m' => ~ returned (parse_obj m' members)) pre ->
  exists effs,
    json_to_event (JObj members) self_name
    = (effs ++ [Log ERROR (FailedToParse (JObj members)) (Some e)], Ret None)
    /\ parse_calls effs = pre.
Proof.
  intros Hgen Hpre.
  destruct (for_models_raise pre e members Hpre) as [effs [Hrun Hcalls]].
  exists effs. split; [|exact Hcalls].
  unfold json_to_event. rewrite Hgen, Hrun. reflexivity.
Qed.

(** ** Connections with identities of their own *)

Lemma for_models_no_close (p : package) (g : gen model)
  (members : list (string * json)) :
  no_duplicate_close p (fst (for_models g members)).
Proof.
  induction g as [| e | m rest IH]; simpl.
  - repeat constructor.
  - constructor.
  - destruct (parse_obj m members) as [ev|e]; [repeat constructor|].
    destruct (for_models rest members) as [effs r]. simpl in *.
    repeat constructor. exact IH.
Qed.

Lemma json_to_event_no_close (p : package) (json_data : json)
  (self_name : option string) :
  no_duplicate_close p (fst (json_to_event json_data self_name)).
Proof.
  destruct json_data; simpl; try constructor.
  pose proof (for_models_no_close p (get_event_model members) members)
    as Hno.
  destruct (for_models (get_event_model members) members) as [effs [ev|e]];
    simpl in *; [exact Hno|].
  apply Forall_app. split; [exact Hno|]. repeat constructor.
Qed.

(** A resumed coroutine rejects nobody. *)
Lemma resume_no_close (p : package) (ws : WebSocket) (at_pc : pc)
  (a : answer) (st : state) :
  exists effs,
    trace (snd (resume p ws at_pc a st)) = trace st ++ effs
    /\ no_duplicate_close p effs.
Proof.
  assert (Hnil : exists effs,
            trace st = trace st ++ effs /\ no_duplicate_close p effs).
  { exists []. split; [rewrite app_nil_r; reflexivity|constructor]. }
  destruct at_pc as [| n | n b | n b c | | |]; simpl; try exact Hnil.
  - destruct a; exact Hnil.
  - destruct a; simpl; try exact Hnil.
    eexists. split; [rewrite <- app_assoc; reflexivity|].
    repeat constructor.
  - unfold after_receive, leave_loop, enter_finally.
    destruct a as [data|e|]; simpl.
    + destruct (json_loads py data) as [json_data|e]; simpl.
      * pose proof (json_to_event_no_close p json_data (Some n)) as Hdec.
        destruct (json_to_event json_data (Some n)) as [effs [[ev|]|e]];
          simpl in *.
        -- eexists. split; [reflexivity|].
           apply Forall_app. split; [exact Hdec|]. repeat constructor.
        -- eexists. split; [reflexivity|exact Hdec].
        -- eexists. split; [rewrite <- !app_assoc; reflexivity|].
           apply Forall_app. split; [exact Hdec|].
           repeat constructor; destruct e; reflexivity.
      * eexists. split; [rewrite <- !app_assoc; reflexivity|].
        repeat constructor; destruct e; reflexivity.
    + eexists. split; [rewrite <- !app_assoc; reflexivity|].
      repeat constructor; destruct e; reflexivity.
    + eexists. split; [reflexivity|]. repeat constructor.
  - destruct a; simpl; try exact Hnil;
      (eexists; split; [reflexivity|]; repeat constructor).
Qed.

(** A connection without an identity is turned away before the
    duplicate check. *)
Lemma handshake_no_identity (p : package) (ws : WebSocket) (st : state) :
  identity p ws = None ->
  (exists e, handshake p ws st = (Raised e, st))
  \/ handshake p ws st
     = (AwaitReject,
        emit [Log WARNING MissingHeader None;
              Close ws 1008 (missing_reason p)] st).
Proof.
  unfold identity, handshake.
  destruct (read_self_name p ws) as [[[|c s]|]|e]; simpl;
    try discriminate; intros _; eauto.
Qed.

Lemma holds_entries_same_at (p : package) (ws : WebSocket) (at_pc : pc)
  (self_name : string) (st st' : state) :
  stands_for p ws at_pc ->
  identity p ws = Some self_name ->
  same_at self_name st st' ->
  holds_entries p ws at_pc st ->
  holds_entries p ws at_pc st'.
Proof.
  intros Hst Hid [Hc [Hg Hb]] Hhold.
  destruct at_pc as [| n | n b | n b c | | |]; simpl in *; try exact I;
    destruct Hst as [Hid' _];
    assert (n = self_name) by congruence; subst n;
    rewrite Hc, Hg, Hb; exact Hhold.
Qed.

Lemma loop_step_undisturbed (p : package) (wss : list WebSocket)
  (l : loop) (t : turn) :
  distinct_identities p wss ->
  (forall ws, t = Connect ws -> In ws wss) ->
  undisturbed p wss l /\ no_duplicate_close p (trace (world l)) ->
  undisturbed p wss (loop_step p l t)
  /\ no_duplicate_close p (trace (world (loop_step p l t))).
Proof.
  intros Hdistinct Harrive [[Htasks Hbots] Htrace].
  destruct t as [ws | id a]; simpl.
  - destruct (tasks l !! ws_id ws) eqn:Hold;
      [split; [split|]; assumption|].
    specialize (Harrive ws eq_refl).
    assert (Hcases : exists next effs,
              handshake p ws (world l) = (next, emit effs (world l))
              /\ stands_for p ws next
              /\ holds_entries p ws next (world l)
              /\ no_duplicate_close p effs).
    { destruct (identity p ws) as [n|] eqn:Hid.
      - destruct (bots (world l) !! n) as [b|] eqn:Hb.
        + exfalso.
          destruct (Hbots n (ex_intro _ b Hb)) as [id' [ws' [pc' [Hin Hid']]]].
          destruct (Htasks id' ws' pc' Hin) as [Hmem [Hsame _]].
          pose proof (Hdistinct ws ws' n Harrive Hmem Hid Hid') as Heq.
          rewrite Heq, Hsame, Hin in Hold. discriminate.
        + exists (AwaitAccept n), [Accept ws].
          split; [apply handshake_fresh; assumption|].
          split; [exact Hid|]. split; [exact I|]. repeat constructor.
      - destruct (handshake_no_identity p ws (world l) Hid) as [[e He]|Hrej].
        + exists (Raised e), []. rewrite emit_nil.
          split; [exact He|]. split; [exact I|]. split; [exact I|].
          constructor.
        + eexists. eexists. split; [exact Hrej|].
          split; [exact I|]. split; [exact I|].
          repeat constructor. destruct p; reflexivity. }
    destruct Hcases as [next [effs [-> [Hst [Hhold Hno]]]]].
    split; [split|].
    + intros id ws' at_pc Hlook. simpl in Hlook.
      destruct (decide (ws_id ws = id)) as [<-|Hother].
      * rewrite lookup_insert_eq in Hlook. inversion Hlook; subst.
        split; [assumption|]; split; [reflexivity|];
          split; [assumption|]; destruct at_pc; exact Hhold.
      * rewrite lookup_insert_ne in Hlook by exact Hother.
        destruct (Htasks id ws' at_pc Hlook) as [H1 [H2 [H3 H4]]].
        split; [assumption|]; split; [assumption|];
          split; [assumption|]; destruct at_pc; exact H4.
    + intros n Hn. simpl in Hn.
      destruct (Hbots n Hn) as [id' [ws' [pc' [Hin Hid']]]].
      exists id', ws', pc'. split; [|exact Hid']. simpl.
      rewrite lookup_insert_ne; [exact Hin|].
      intros Heq. rewrite Heq, Hin in Hold. discriminate.
    + simpl. apply Forall_app. split; assumption.
  - destruct (tasks l !! id) as [[ws at_pc]|] eqn:Hold;
      [|split; [split|]; assumption].
    destruct (Htasks id ws at_pc Hold) as [Hmem [Hsame [Hst Hhold]]].
    assert (Hall : handled p ws (world l) at_pc (world l)).
    { split; [exact Hst|]. split; [exact Hhold|].
      split; [intros k _; apply same_at_refl|].
      exists []. split; [rewrite app_nil_r; reflexivity|constructor]. }
    pose proof (resume_handled p ws (world l) at_pc a (world l) Hall)
      as [Hst' [Hhold' [Hframe _]]].
    destruct (resume_no_close p ws at_pc a (world l)) as [effs [Htr Hno]].
    destruct (resume p ws at_pc a (world l)) as [next st'] eqn:Hres.
    simpl in *.
    split; [split|].
    + intros id' ws' pc' Hlook. simpl in Hlook.
      destruct (decide (id = id')) as [<-|Hother].
      * rewrite lookup_insert_eq in Hlook. inversion Hlook; subst.
        split; [assumption|]; split; [reflexivity|];
          split; assumption.
      * rewrite lookup_insert_ne in Hlook by exact Hother.
        destruct (Htasks id' ws' pc' Hlook) as [H1 [H2 [H3 H4]]].
        split; [assumption|]. split; [assumption|].
        split; [assumption|]. simpl.
        destruct (identity p ws') as [n'|] eqn:Hid'.
        -- apply (holds_entries_same_at p ws' pc' n' (world l) st');
             try assumption.
           apply Hframe. intros Hid.
           apply Hother. rewrite <- Hsame, <- H2.
           apply (Hdistinct ws ws' n'); assumption.
        -- destruct pc' as [| n | n b | n b c | | |]; try exact I;
             simpl in H3; destruct H3 as [H3 _]; congruence.
    + intros n Hn. simpl in Hn. simpl.
      destruct (decide (identity p ws = Some n)) as [Hid|Hid].
      * exists id, ws, next. split; [apply lookup_insert_eq|exact Hid].
      * destruct (Hframe n Hid) as [_ [_ Hb]]. rewrite Hb in Hn.
        destruct (Hbots n Hn) as [id' [ws' [pc' [Hin Hid']]]].
        destruct (decide (id = id')) as [<-|Hother].
        -- exists id, ws, next. split; [apply lookup_insert_eq|].
           rewrite Hold in Hin. inversion Hin; subst. exact Hid'.
        -- exists id', ws', pc'. split; [|exact Hid'].
           rewrite lookup_insert_ne by exact Hother. exact Hin.
    + rewrite Htr. apply Forall_app. split; assumption.
Qed.

Lemma run_loop_undisturbed (p : package) (wss : list WebSocket)
  (turns : list turn) (l : loop) :
  distinct_identities p wss ->
  (forall ws, In ws (arrivals turns) -> In ws wss) ->
  undisturbed p wss l /\ no_duplicate_close p (trace (world l)) ->
  undisturbed p wss (run_loop p turns l)
  /\ no_duplicate_close p (trace (world (run_loop p turns l))).
Proof.
  intros Hdistinct. revert l.
  induction turns as [|t turns IH]; intros l Harrive Hl; simpl;
    [exact Hl|].
  apply IH.
  - intros ws Hin. apply Harrive. destruct t; simpl; auto.
  - apply loop_step_undisturbed; try assumption.
    intros ws ->. apply Harrive. left. reflexivity.
Qed.

(** When no two of the connections that arrive present the same
    identity, they do not disturb each other, in whatever order the
    event loop runs their blocks: every connection that awaits a frame
    is registered under its identity with its own websocket and bot, and
    no connection is ever rejected as a duplicate. *)
Theorem distinct_identities_never_collide (p : package)
  (turns : list turn) :
  distinct_identities p (arrivals turns) ->
  let l := run_loop p turns empty_loop in
  (forall id ws self_name bot,
     tasks l !! id = Some (ws, AwaitReceive self_name bot) ->
     identity p ws = Some self_name
     /\ connections (world l) !! self_name = Some ws
     /\ bots (world l) !! self_name = Some bot)
  /\ no_duplicate_close p (trace (world l)).
Proof.
  intros Hdistinct l.
  destruct (run_loop_undisturbed p (arrivals turns) turns empty_loop
              Hdistinct (fun ws H => H)) as [[Htasks _] Htrace].
  { split; [split|constructor].
    - intros id ws at_pc Hlook. simpl in Hlook.
      rewrite lookup_empty in Hlook. discriminate.
    - intros n [b Hb]. simpl in Hb. rewrite lookup_empty in Hb.
      discriminate. }
  split; [|exact Htrace].
  intros id ws n b Hlook.
  destruct (Htasks id ws _ Hlook) as [_ [_ [[Hid _] [Hc [Hb _]]]]].
  repeat split; assumption.
Qed.

End Adapter.

(** ** Properties of [json.loads]

    The scanner leaves a shorter text behind, so the fuel that
    [json_loads] gives it is never used up: with more fuel the answer is
    the same. *)

Lemma skip_ws_length (s : string) : String.length (skip_ws s) <= String.length s.
Proof.
  induction s as [|c s IH]; simpl; [lia|].
  destruct (is_ws c); simpl; lia.
Qed.

Ltac break_scan H :=
  repeat match type of H with
         | (if ?b then _ else _) = _ => destruct b eqn:?
         | match ?x with _ => _ end = _ => destruct x eqn:?
         | Some _ = Some _ => inversion H; subst; clear H
         | None = Some _ => discriminate H
         | Ret _ = Ret _ => inversion H; subst; clear H
         | Raise _ = Ret _ => discriminate H
         end.

Lemma scan_string_shorter (n : nat) :
  forall s ps r, String.length s <= n -> scan_string s = Some (ps, r) -> String.length r < String.length s.
Proof.
  induction n as [|n IH]; intros s ps r Hn Hs.
  - destruct s; simpl in *; [discriminate|lia].
  - destruct s as [|c s]; simpl in Hs; [discriminate|].
    simpl in Hn.
    break_scan Hs; simpl in *;
      repeat match goal with
             | E : scan_string ?x = Some _ |- _ => apply IH in E; [|simpl; lia]
             end; simpl in *; lia.
Qed.

Lemma scan_literal_shorter (s key r : string) :
  scan_literal s = Some (key, r) -> String.length r < String.length s.
Proof.
  unfold scan_literal. destruct (scan_string s) as [[ps r']|] eqn:Hs; [|discriminate].
  intros H. inversion H; subst. eapply scan_string_shorter; eauto.
Qed.

Lemma span_digits_length (s : string) : String.length (snd (span_digits s)) <= String.length s.
Proof.
  induction s as [|c s IH]; simpl; [lia|].
  destruct (is_digit c); simpl; [|lia].
  destruct (span_digits s); simpl in *. lia.
Qed.

Lemma scan_int_shorter (s : string) ds r :
  scan_int s = Some (ds, r) -> String.length r < String.length s.
Proof.
  destruct s as [|c s]; simpl; [discriminate|].
  destruct (N_of_ascii c =? 48)%N; [intros H; inversion H; subst; simpl; lia|].
  destruct (is_digit c); [|discriminate].
  pose proof (span_digits_length s) as Hl.
  destruct (span_digits s). intros H; inversion H; subst. simpl in *. lia.
Qed.

Lemma scan_frac_length (s : string) : String.length (snd (scan_frac s)) <= String.length s.
Proof.
  destruct s as [|c s]; simpl; [lia|].
  destruct (N_of_ascii c =? 46)%N; simpl; [|lia].
  pose proof (span_digits_length s) as Hl.
  destruct (span_digits s) as [[|d ds] r]; simpl in *; lia.
Qed.

Ltac break_goal :=
  repeat match goal with
         | |- context [match ?x with _ => _ end] => destruct x eqn:?
         | |- context [if ?b then _ else _] => destruct b eqn:?
         end.

Lemma scan_exp_length (s : string) : String.length (snd (scan_exp s)) <= String.length s.
Proof.
  destruct s as [|c [|g s]]; unfold scan_exp.
  - simpl. lia.
  - break_goal; simpl; lia.
  - pose proof (span_digits_length s) as H1.
    pose proof (span_digits_length (String g s)) as H2.
    break_goal; simpl in *; lia.
Qed.

Lemma scan_number_shorter (s lexeme r : string) (int_digits : option nat) :
  scan_number s = Some (lexeme, int_digits, r) ->
  String.length r < String.length s.
Proof.
  unfold scan_number.
  set (first := match s with
                | String c s' => if (N_of_ascii c =? 45)%N then ([c], s') else ([], s)
                | EmptyString => ([], s)
                end).
  assert (Hfirst : String.length (snd first) <= String.length s).
  { subst first. destruct s as [|c s]; simpl; [lia|].
    destruct (N_of_ascii c =? 45)%N; simpl; lia. }
  destruct first as [sign s1]. simpl in Hfirst.
  destruct (scan_int s1) as [[ds s2]|] eqn:Hint; [|discriminate].
  apply scan_int_shorter in Hint.
  pose proof (scan_frac_length s2) as Hf.
  destruct (scan_frac s2) as [fr s3]. simpl in Hf.
  pose proof (scan_exp_length s3) as He.
  destruct (scan_exp s3) as [ex s4]. simpl in He.
  intros H; inversion H; subst. lia.
Qed.

Lemma strip_prefix_length (p s r : string) :
  strip_prefix p s = Some r -> String.length s = String.length p + String.length r.
Proof.
  revert s. induction p as [|a p IH]; intros s; simpl.
  - intros H; inversion H; subst. reflexivity.
  - destruct s as [|b s]; [discriminate|].
    destruct (Ascii.eqb a b); [|discriminate].
    intros H. apply IH in H. simpl. lia.
Qed.

Lemma scan_constant_shorter (s : string) v r :
  scan_constant s = Some (v, r) -> String.length r < String.length s.
Proof.
  unfold scan_constant. intros H.
  repeat match type of H with
         | context [strip_prefix ?p s] =>
             let E := fresh "E" in
             destruct (strip_prefix p s) eqn:E;
             [apply strip_prefix_length in E; inversion H; subst; simpl in E; lia|]
         end.
  discriminate.
Qed.

Lemma skip_ws_cons_length (s r : string) (d : ascii) :
  skip_ws s = String d r -> String.length r < String.length s.
Proof.
  intros H. pose proof (skip_ws_length s) as Hl. rewrite H in Hl.
  simpl in Hl. lia.
Qed.

Lemma scan_shorter (max_digits fuel : nat) :
  (forall room s v r,
     scan_value max_digits fuel room s = Ret (v, r) ->
     String.length r < String.length s)
  /\ (forall room s acc v r,
        scan_items max_digits fuel room s acc = Ret (v, r) ->
        String.length r < String.length s)
  /\ (forall room s acc v r,
        scan_members max_digits fuel room s acc = Ret (v, r) ->
        String.length r < String.length s).
Proof.
  induction fuel as [|fuel [IHv [IHi IHm]]].
  - split; [|split]; intros; discriminate.
  - split; [|split].
    + intros room s v r H. simpl in H.
      destruct s as [|c s]; [discriminate|].
      pose proof (skip_ws_length s) as Hws.
      break_scan H; simpl in *;
        repeat match goal with
               | E : scan_literal _ = Some _ |- _ => apply scan_literal_shorter in E
               | E : scan_items _ _ _ _ _ = Ret _ |- _ => apply IHi in E
               | E : scan_members _ _ _ _ _ = Ret _ |- _ => apply IHm in E
               | E : scan_constant _ = Some _ |- _ => apply scan_constant_shorter in E
               | E : scan_number _ = Some _ |- _ => apply scan_number_shorter in E
               | E : skip_ws _ = String _ _ |- _ => apply skip_ws_cons_length in E
               end; simpl in *; try lia.
    + intros room s acc v r H. simpl in H.
      break_scan H;
        repeat match goal with
               | E : scan_value _ _ _ _ = Ret _ |- _ => apply IHv in E
               | E : scan_items _ _ _ _ _ = Ret _ |- _ => apply IHi in E
               | E : skip_ws ?x = String _ _ |- _ =>
                   pose proof (skip_ws_length x); apply skip_ws_cons_length in E
               end; simpl in *; try lia.
      all: match goal with
           | E : String.length ?r < String.length (skip_ws ?x) |- _ => pose proof (skip_ws_length x)
           end; lia.
    + intros room s acc v r H. simpl in H.
      break_scan H;
        repeat match goal with
               | E : scan_value _ _ _ _ = Ret _ |- _ => apply IHv in E
               | E : scan_members _ _ _ _ _ = Ret _ |- _ => apply IHm in E
               | E : scan_literal _ = Some _ |- _ => apply scan_literal_shorter in E
               | E : skip_ws ?x = String _ _ |- _ => apply skip_ws_cons_length in E
               end; simpl in *;
        repeat match goal with
               | E : context [String.length (skip_ws ?x)] |- _ =>
                   lazymatch goal with
                   | _ : String.length (skip_ws x) <= String.length x |- _ => fail
                   | _ => pose proof (skip_ws_length x)
                   end
               end; try lia.
Qed.

Lemma scan_stable (max_digits fuel : nat) :
  (forall room s,
     2 * String.length s <= fuel ->
     scan_value max_digits (S fuel) room s
     = scan_value max_digits fuel room s)
  /\ (forall room s acc,
        2 * String.length s + 1 <= fuel ->
        scan_items max_digits (S fuel) room s acc
        = scan_items max_digits fuel room s acc)
  /\ (forall room s acc,
        2 * String.length s + 1 <= fuel ->
        scan_members max_digits (S fuel) room s acc
        = scan_members max_digits fuel room s acc).
Proof.
  induction fuel as [|fuel [IHv [IHi IHm]]].
  - split; [|split].
    + intros room s Hs. destruct s; [reflexivity|simpl in *; lia].
    + intros room s acc Hs. lia.
    + intros room s acc Hs. lia.
  - split; [|split].
    + intros room s Hs. destruct s as [|c s]; [reflexivity|].
      simpl in Hs. pose proof (skip_ws_length s) as Hws.
      destruct room as [|room]; [reflexivity|].
      remember (S fuel) as more eqn:Hmore. simpl. subst more.
      rewrite (IHi room (skip_ws s) []) by lia.
      rewrite (IHm room (skip_ws s) []) by lia.
      reflexivity.
    + intros room s acc Hs.
      remember (S fuel) as more eqn:Hmore. simpl. subst more.
      rewrite (IHv room s) by lia.
      destruct (scan_value max_digits fuel room s) as [[v r]|e] eqn:Hv;
        [|simpl; rewrite Hv; reflexivity].
      pose proof (proj1 (scan_shorter max_digits fuel) _ _ _ _ Hv) as Hlt.
      destruct (skip_ws r) as [|d r'] eqn:Hr;
        [simpl; rewrite Hv, Hr; reflexivity|].
      pose proof (skip_ws_cons_length _ _ _ Hr) as Hlt'.
      pose proof (skip_ws_length r') as Hws.
      rewrite (IHi room (skip_ws r') (v :: acc)) by lia.
      simpl. rewrite Hv, Hr. reflexivity.
    + intros room s acc Hs.
      destruct s as [|q s]; [reflexivity|]. simpl in Hs.
      remember (S fuel) as more eqn:Hmore. simpl. subst more.
      destruct (N_of_ascii q =? 34)%N eqn:Hq;
        [|simpl; rewrite Hq; reflexivity].
      destruct (scan_literal s) as [[key r]|] eqn:Hk;
        [|simpl; rewrite Hq, Hk; reflexivity].
      pose proof (scan_literal_shorter _ _ _ Hk) as Hlt.
      destruct (skip_ws r) as [|d r'] eqn:Hr;
        [simpl; rewrite Hq, Hk, Hr; reflexivity|].
      pose proof (skip_ws_cons_length _ _ _ Hr) as Hlt'.
      destruct (N_of_ascii d =? 58)%N eqn:Hd;
        [|simpl; rewrite Hq, Hk, Hr, Hd; reflexivity].
      pose proof (skip_ws_length r') as Hws.
      rewrite (IHv room (skip_ws r')) by lia.
      destruct (scan_value max_digits fuel room (skip_ws r'))
        as [[v r'']|e] eqn:Hv;
        [|simpl; rewrite Hq, Hk, Hr, Hd, Hv; reflexivity].
      pose proof (proj1 (scan_shorter max_digits fuel) _ _ _ _ Hv) as Hlt''.
      destruct (skip_ws r'') as [|e r3] eqn:Hr3;
        [simpl; rewrite Hq, Hk, Hr, Hd, Hv, Hr3; reflexivity|].
      pose proof (skip_ws_cons_length _ _ _ Hr3) as Hlt3.
      pose proof (skip_ws_length r3) as Hws3.
      rewrite (IHm room (skip_ws r3) ((key, v) :: acc)) by lia.
      simpl. rewrite Hq, Hk, Hr, Hd, Hv, Hr3. reflexivity.
Qed.

(** More fuel than [json_loads] gives changes nothing. *)
Lemma scan_value_fuel (max_digits room : nat) (s : string) (extra : nat) :
  scan_value max_digits (2 * String.length s + extra) room s
  = scan_value max_digits (2 * String.length s) room s.
Proof.
  induction extra as [|k IH]; [f_equal; lia|].
  replace (2 * String.length s + S k) with (S (2 * String.length s + k)) by lia.
  rewrite (proj1 (scan_stable max_digits (2 * String.length s + k))) by lia.
  exact IH.
Qed.

Lemma json_loads_fuel (max_digits room : nat) (data : string)
  (extra : nat) :
  scan_value max_digits (2 * String.length data + 2 + extra) room
    (skip_ws data)
  = scan_value max_digits (2 * String.length data + 2) room (skip_ws data).
Proof.
  pose proof (skip_ws_length data) as Hws.
  replace (2 * String.length data + 2 + extra)
    with (2 * String.length (skip_ws data)
          + (2 * (String.length data - String.length (skip_ws data)) + 2 + extra)) by lia.
  replace (2 * String.length data + 2)
    with (2 * String.length (skip_ws data)
          + (2 * (String.length data - String.length (skip_ws data)) + 2)) by lia.
  rewrite !scan_value_fuel. reflexivity.
Qed.

(** ** Properties of the Collator *)

Section CollatorProperties.

Context {model : Type}.
Variable declared : model -> string -> option string.










End CollatorProperties.

(** ** The scenarios of section 8, on the sample schema *)



(** Bot1 connects and sends one event; its peer closes, and the task is
    cancelled while the [finally] clause awaits the close. *)
Lemma C3_witness :
  let run :=
    handle_ws sample_parse_obj BaseEvent sample_get_model sample_python
      adapter_spigot first_ws in
  let answers := [Resumed EmptyString; Resumed join_frame] in
  run answers empty_state
  = (AwaitReceive "Bot1" bot1, snd (run answers empty_state))
  /\ exists last st' effs,
       run (answers ++ [Thrown WebSocketClosed; Cancel]) empty_state
       = (last, st')
       /\ finished last = true
       /\ trace st' = trace empty_state ++ effs
       /\ connections st' !! "Bot1" = Some first_ws
       /\ bots st' !! "Bot1" = Some bot1
       /\ disconnects bot1 effs = 0.
Proof.
  split; [vm_compute; reflexivity|].
  apply (C3_cleanup_after_loop sample_parse_obj BaseEvent sample_get_model
           sample_python adapter_spigot first_ws
           [Resumed EmptyString; Resumed join_frame] empty_state
           (snd (handle_ws sample_parse_obj BaseEvent sample_get_model
                   sample_python adapter_spigot first_ws
                   [Resumed EmptyString; Resumed join_frame] empty_state))
           "Bot1" bot1 (Thrown WebSocketClosed) Cancel).
  - vm_compute. reflexivity.
  - vm_compute. discriminate.
Defined.

(** Bot1 is connected; a second connection presents the same
    identity. *)
Lemma C4_witness :
  let st :=
    snd (handle_ws sample_parse_obj BaseEvent sample_get_model sample_python
           adapters_spigot first_ws [Resumed EmptyString] empty_state) in
  connections st !! "Bot1" = Some first_ws
  /\ exists last : pc,
       handle_ws sample_parse_obj BaseEvent sample_get_model sample_python
         adapters_spigot second_ws [Resumed EmptyString] st
       = (last,
          emit [Log WARNING (AlreadyABot "Bot1") None;
                Close second_ws 1008 "Duplicate X-Self-Name"] st)
       /\ (last = AwaitReject \/ finished last = true)
       /\ connections
            (snd (handle_ws sample_parse_obj BaseEvent sample_get_model
                sample_python
                    adapters_spigot second_ws [Resumed EmptyString] st))
          !! "Bot1" = Some first_ws
       /\ bots
            (snd (handle_ws sample_parse_obj BaseEvent sample_get_model
                sample_python
                    adapters_spigot second_ws [Resumed EmptyString] st))
          = bots st.
Proof.
  split; [vm_compute; reflexivity|].
  apply (C4_duplicate_identity_rejected sample_parse_obj BaseEvent
           sample_get_model
               sample_python adapters_spigot second_ws first_ws "Bot1").
  - split; vm_compute; reflexivity.
  - vm_compute. reflexivity.
  - reflexivity.
Defined.

(** The frame [[1, 2]] holds an array. *)
Lemma C6_witness :
  json_loads sample_python "[1, 2]" = Ret (JArr [JNum "1"; JNum "2"])
  /\ json_to_event sample_parse_obj BaseEvent sample_get_model
       (JArr [JNum "1"; JNum "2"]) (Some "Bot1")
     = ([], Ret None).
Proof.
  split; [reflexivity|].
  exact (proj1
           (C6_not_a_dict_returns_none sample_parse_obj BaseEvent
              sample_get_model (JArr [JNum "1"; JNum "2"]) (Some "Bot1")
              eq_refl)).
Defined.

(** The candidates [PlayerQuit], [PlayerJoin], [Event] for the frame
    of the scenario: [PlayerQuit] fails, [PlayerJoin] parses, [Event] is
    not tried. *)
Lemma C7_witness :
  exists effs,
    json_to_event sample_parse_obj BaseEvent
      (fun _ => gen_of_list [PlayerQuit; PlayerJoin; BaseEvent])
      (JObj join_members) (Some "Bot1")
    = (effs, Ret (Some (APlayerJoin "Steve")))
    /\ parse_calls effs = [PlayerQuit; PlayerJoin].
Proof.
  apply (C7_first_parsing_candidate_wins sample_parse_obj BaseEvent
           (fun _ => gen_of_list [PlayerQuit; PlayerJoin; BaseEvent])
           join_members (Some "Bot1") [PlayerQuit] PlayerJoin
           (GYield BaseEvent GEnd) (APlayerJoin "Steve")).
  - reflexivity.
  - constructor; [|constructor]. simpl. intros H. exact H.
  - reflexivity.
Defined.

(** A payload without [event_name]: the candidate fails, the base
    [Event] fails after it, and the result is [None]. *)
Lemma C8_witness :
  exists effs,
    json_to_event sample_parse_obj BaseEvent
      (fun _ => gen_of_list [PlayerJoin])
      (JObj [("player", JStr "Steve")]) (Some "Bot1")
    = (effs, Ret None)
    /\ parse_calls effs = [PlayerJoin; BaseEvent].
Proof.
  apply (proj2
           (C8_fallback_then_none sample_parse_obj BaseEvent
              (fun _ => gen_of_list [PlayerJoin])
              (JObj [("player", JStr "Steve")]) (Some "Bot1"))
           [("player", JStr "Steve")] [PlayerJoin]).
  - reflexivity.
  - reflexivity.
  - constructor; [|constructor]. simpl. intros H. exact H.
Defined.


(** Bot1 connects through the [nonebot.adapters.spigot] package, sends
    one event, and its task is cancelled. *)
Lemma C10_witness :
  let run :=
    handle_ws sample_parse_obj BaseEvent sample_get_model
        sample_python adapters_spigot
      first_ws in
  let answers := [Resumed EmptyString; Resumed join_frame; Cancel] in
  run answers empty_state
  = (AwaitClose "Bot1" bot1 true, snd (run answers empty_state))
  /\ connections (snd (run answers empty_state)) !! "Bot1" = Some first_ws
  /\ get_connections (snd (run answers empty_state)) !! "Bot1"
     = Some first_ws
  /\ exists last st',
       run (answers ++ [Resumed EmptyString]) empty_state = (last, st')
       /\ finished last = true
       /\ connections st' !! "Bot1" = None
       /\ get_connections st' !! "Bot1" = Some first_ws.
Proof.
  split; [vm_compute; reflexivity|].
  apply (C10_get_connections_entry_stays sample_parse_obj BaseEvent
           sample_get_model sample_python first_ws
           [Resumed EmptyString; Resumed join_frame; Cancel] empty_state
           (snd (handle_ws sample_parse_obj BaseEvent sample_get_model
               sample_python
                   adapters_spigot first_ws
                   [Resumed EmptyString; Resumed join_frame; Cancel]
                   empty_state))
           "Bot1" bot1 true (Resumed EmptyString)).
  - vm_compute. reflexivity.
  - discriminate.
Defined.

(** The frame [42] holds a number: the loop goes on. *)
Lemma json_frame_keeps_loop_witness :
  json_loads sample_python "42" = Ret (JNum "42")
  /\ exists effs,
       after_receive sample_parse_obj BaseEvent sample_get_model
           sample_python first_ws
         "Bot1" bot1 (Resumed "42") empty_state
       = (AwaitReceive "Bot1" bot1, emit effs empty_state)
       /\ Forall decoding_effect effs
       /\ quiet effs.
Proof.
  split; [reflexivity|].
  apply (json_frame_keeps_loop sample_parse_obj BaseEvent sample_get_model
      sample_python
           first_ws "Bot1" bot1 "42" (JNum "42") empty_state).
  reflexivity.
Defined.

Lemma non_object_frame_ignored_witness :
  after_receive sample_parse_obj BaseEvent sample_get_model
      sample_python first_ws
    "Bot1" bot1 (Resumed "[1, 2]") empty_state
  = (AwaitReceive "Bot1" bot1, empty_state).
Proof.
  apply (non_object_frame_ignored sample_parse_obj BaseEvent
           sample_get_model sample_python first_ws "Bot1" bot1 "[1, 2]"
           (JArr [JNum "1"; JNum "2"]) empty_state).
  - reflexivity.
  - reflexivity.
Defined.

Lemma loop_end_reaches_finally_witness :
  exists cancelled st1,
    after_receive sample_parse_obj BaseEvent sample_get_model
        sample_python first_ws
      "Bot1" bot1 (Thrown WebSocketClosed) empty_state
    = (AwaitClose "Bot1" bot1 cancelled, st1).
Proof.
  apply (loop_end_reaches_finally sample_parse_obj BaseEvent sample_get_model
      sample_python
           first_ws "Bot1" bot1 (Thrown WebSocketClosed) empty_state).
  exact I.
Defined.

(** ** Properties of [DEFAULT_MODELS] *)

Lemma issubclass_refl (c : pyclass) : issubclass c c = true.
Proof. unfold issubclass. rewrite String.eqb_refl. reflexivity. Qed.

Lemma default_models_in (base : pyclass) (attrs : list (string * pyobj))
  (c : pyclass) :
  In c (default_models base attrs)
  <-> In c (classes_of attrs) /\ issubclass c base = true.
Proof.
  induction attrs as [|[name [c'|]] attrs IH]; simpl.
  - tauto.
  - destruct (issubclass c' base) eqn:Hsub; simpl; rewrite IH; split.
    + intros [<- | [Hin Hc]]; auto.
    + intros [[<- | Hin] Hc]; auto.
    + intros [Hin Hc]. auto.
    + intros [[<- | Hin] Hc]; [congruence|auto].
  - exact IH.
Qed.

(** [DEFAULT_MODELS] holds the attributes of the [event] module that are
    classes and subclasses of [Event], each as often and in the order in
    which [dir(event)] names it, and nothing else: it is the list of the
    classes among the attributes with those that are no subclass of
    [Event] left out, so a class bound under two names is in it twice.
    The base [Event] itself is one of them whenever the module binds
    it. *)
Theorem default_models_are_the_event_classes (base : pyclass)
  (attrs : list (string * pyobj)) :
  default_models base attrs
  = List.filter (fun c => issubclass c base) (classes_of attrs)
  /\ (forall c,
        In c (default_models base attrs)
        <-> In c (classes_of attrs) /\ issubclass c base = true)
  /\ subsequence (default_models base attrs) (classes_of attrs)
  /\ (In base (classes_of attrs) -> In base (default_models base attrs)).
Proof.
  split; [|split; [intros c; apply default_models_in|split]].
  - induction attrs as [|[name [c'|]] attrs IH]; simpl.
    + reflexivity.
    + destruct (issubclass c' base); rewrite IH; reflexivity.
    + exact IH.
  - induction attrs as [|[name [c'|]] attrs IH]; simpl.
    + constructor.
    + destruct (issubclass c' base); constructor; exact IH.
    + exact IH.
  - intros Hin. apply default_models_in. split; [exact Hin|].
    apply issubclass_refl.
Qed.

(** ** Properties of the rest of the class *)

(** [_setup] registers at most one server, the one of the adapter. *)
Lemma setup_serves_one_path (d : driver) :
  length (setup d) <= 1
  /\ Forall (fun server =>
               setup_path server = "/spigot/ws"
               /\ setup_name server = get_name)
       (setup d).
Proof. destruct d; simpl; split; try lia; repeat constructor. Qed.

(** [_call_api] does nothing and returns [None]. *)
Lemma call_api_inert {model event : Type} (bot : Bot) (api : string)
  (data : list (string * json)) (st : @state model event) :
  call_api bot api data st = (st, Ret None).
Proof. reflexivity. Qed.

(** ** More scenarios on the sample schema *)

(** A module with the base class of the models, [Event], a name that is
    no class, a variant, and a second name for [Event]. *)
Lemma default_models_witness :
  let base_model := {| class_id := "BaseModel"; ancestors := [] |} in
  let base := {| class_id := "Event"; ancestors := ["BaseModel"] |} in
  let join :=
    {| class_id := "PlayerJoin"; ancestors := ["Event"; "BaseModel"] |} in
  let attrs :=
    [("BaseModel", PyClass base_model); ("Event", PyClass base);
     ("Literal", PyOther); ("PlayerJoin", PyClass join);
     ("SpigotEvent", PyClass base)] in
  default_models base attrs = [base; join; base]
  /\ In base (default_models base attrs).
Proof.
  split; [reflexivity|].
  apply (default_models_are_the_event_classes
           {| class_id := "Event"; ancestors := ["BaseModel"] |}).
  right. left. reflexivity.
Defined.

(** Bot2 is connected; the connection of Bot1 comes, sends an event and
    is closed by its peer. *)
Lemma handler_keeps_to_its_identity_witness :
  let other_ws := {| ws_id := 2; x_self_name := Some "Bot2" |} in
  let st :=
    snd (handle_ws sample_parse_obj BaseEvent sample_get_model sample_python
           adapters_spigot other_ws [Resumed EmptyString] empty_state) in
  connections st !! "Bot2" = Some other_ws
  /\ same_at "Bot2" st
       (snd (handle_ws sample_parse_obj BaseEvent sample_get_model sample_python
               adapters_spigot first_ws
               [Resumed EmptyString; Resumed join_frame;
                Thrown WebSocketClosed; Resumed EmptyString] st)).
Proof.
  split; [vm_compute; reflexivity|].
  apply (handler_keeps_to_its_identity sample_parse_obj BaseEvent
           sample_get_model sample_python adapters_spigot first_ws).
  intros H. vm_compute in H. discriminate H.
Defined.

Lemma receiving_connection_is_registered_witness :
  let run :=
    handle_ws sample_parse_obj BaseEvent sample_get_model
        sample_python adapter_spigot
      first_ws [Resumed EmptyString; Resumed join_frame] empty_state in
  fst run = AwaitReceive "Bot1" bot1
  /\ identity sample_python adapter_spigot first_ws = Some "Bot1"
  /\ bot1 = {| self_id := "Bot1" |}
  /\ Adapter_get_connections (snd run) !! "Bot1" = Some first_ws
  /\ bots (snd run) !! "Bot1" = Some bot1.
Proof.
  split; [vm_compute; reflexivity|].
  apply (receiving_connection_is_registered sample_parse_obj BaseEvent
           sample_get_model sample_python adapter_spigot first_ws
           [Resumed EmptyString; Resumed join_frame] empty_state).
  vm_compute. reflexivity.
Defined.

(** Three frames: an event, a number, an event. *)
Lemma tasks_in_arrival_order_witness :
  exists effs,
    resume_all sample_parse_obj BaseEvent sample_get_model
        sample_python adapter_spigot
      first_ws (AwaitReceive "Bot1" bot1)
      (map Resumed [join_frame; "42"; join_frame]) empty_state
    = (AwaitReceive "Bot1" bot1, emit effs empty_state)
    /\ created effs
       = omap (decoded sample_parse_obj BaseEvent sample_get_model
           sample_python "Bot1")
           [join_frame; "42"; join_frame].
Proof.
  apply (tasks_in_arrival_order sample_parse_obj BaseEvent sample_get_model
      sample_python
           adapter_spigot first_ws "Bot1" bot1
           [join_frame; "42"; join_frame] empty_state).
  repeat constructor.
Defined.

(** Bot1 connects and is closed by its peer; it connects again. *)
Lemma identity_free_after_cleanup_witness :
  let st' :=
    snd (handle_ws sample_parse_obj BaseEvent sample_get_model sample_python
           adapter_spigot first_ws
           ([Resumed EmptyString; Thrown WebSocketClosed]
            ++ [Resumed EmptyString]) empty_state) in
  bots st' !! "Bot1" = None
  /\ handshake sample_python adapter_spigot second_ws st'
     = (AwaitAccept "Bot1", emit [Accept second_ws] st').
Proof.
  apply (identity_free_after_cleanup sample_parse_obj BaseEvent
           sample_get_model sample_python adapter_spigot first_ws second_ws
           [Resumed EmptyString; Thrown WebSocketClosed] empty_state
           (snd (handle_ws sample_parse_obj BaseEvent sample_get_model
               sample_python
                   adapter_spigot first_ws
                   [Resumed EmptyString; Thrown WebSocketClosed]
                   empty_state))
           "Bot1" bot1 false (Resumed EmptyString)).
  - vm_compute. reflexivity.
  - discriminate.
  - reflexivity.
Defined.

(** Bot1 connects, its peer closes, and the task is cancelled during
    the close; Bot1 cannot connect again. *)
Lemma cancelled_close_skips_cleanup_witness :
  let run :=
    handle_ws sample_parse_obj BaseEvent sample_get_model
        sample_python adapter_spigot
      first_ws in
  let answers := [Resumed EmptyString; Thrown WebSocketClosed] in
  let st1 := snd (run answers empty_state) in
  run (answers ++ [Cancel]) empty_state = (Cancelled, st1)
  /\ connections st1 !! "Bot1" = Some first_ws
  /\ bots st1 !! "Bot1" = Some bot1
  /\ (exists effs,
        trace st1 = trace empty_state ++ effs /\ disconnects bot1 effs = 0)
  /\ handshake sample_python adapter_spigot second_ws st1
     = (AwaitReject,
        emit [Log WARNING (AlreadyABot "Bot1") None;
              Close second_ws 1008 (duplicate_reason adapter_spigot)] st1).
Proof.
  apply (cancelled_close_skips_cleanup sample_parse_obj BaseEvent
           sample_get_model sample_python adapter_spigot first_ws second_ws
           [Resumed EmptyString; Thrown WebSocketClosed] empty_state
           (snd (handle_ws sample_parse_obj BaseEvent sample_get_model
               sample_python
                   adapter_spigot first_ws
                   [Resumed EmptyString; Thrown WebSocketClosed]
                   empty_state))
           "Bot1" bot1 false).
  - vm_compute. reflexivity.
  - reflexivity.
Defined.

(** The accept of Bot1 fails. *)
Lemma registry_untouched_until_accept_witness :
  fst (handshake (model := sample_model) (event := sample_event)
         sample_python adapter_spigot first_ws empty_state)
  = AwaitAccept "Bot1"
  /\ same_registry empty_state
       (snd (handle_ws sample_parse_obj BaseEvent sample_get_model sample_python
               adapter_spigot first_ws
               [Thrown (OtherError "accept failed"); Resumed join_frame]
               empty_state)).
Proof.
  split; [reflexivity|].
  apply (registry_untouched_until_accept sample_parse_obj BaseEvent
           sample_get_model sample_python adapter_spigot first_ws
           [Thrown (OtherError "accept failed"); Resumed join_frame]
           empty_state).
  exact I.
Defined.

(** A header of three bytes: the letter Z and the two bytes that a
    letter outside ASCII takes in UTF-8. *)
Lemma escape_free_header_witness :
  let header := String "Z" (String (ascii_of_N 195)
                  (String (ascii_of_N 171) EmptyString)) in
  let ws := {| ws_id := 4; x_self_name := Some header |} in
  plain header = false
  /\ exists decoded_name,
       read_self_name sample_python adapters_spigot ws = Ret (Some decoded_name)
       /\ String.length decoded_name
          = String.length header + high_bytes header
       /\ (read_self_name sample_python adapters_spigot ws
           = read_self_name sample_python adapter_spigot ws
           <-> plain header = true).
Proof.
  split; [reflexivity|].
  apply (escape_free_header sample_python
           {| ws_id := 4;
              x_self_name :=
                Some (String "Z" (String (ascii_of_N 195)
                        (String (ascii_of_N 171) EmptyString))) |}).
  - reflexivity.
  - reflexivity.
Defined.

Lemma dangling_backslash_raises_witness :
  let ws := {| ws_id := 5; x_self_name := Some ("Bot1" +:+ backslash) |} in
  handle_ws sample_parse_obj BaseEvent sample_get_model
      sample_python adapters_spigot ws
    [Resumed EmptyString] empty_state
  = (Raised UnicodeDecodeError, empty_state)
  /\ read_self_name
      sample_python adapter_spigot ws = Ret (Some ("Bot1" +:+ backslash)).
Proof.
  apply (dangling_backslash_raises sample_parse_obj BaseEvent
           sample_get_model sample_python
           {| ws_id := 5; x_self_name := Some ("Bot1" +:+ backslash) |}
           "Bot1").
  - reflexivity.
  - reflexivity.
Defined.

(** A Collator that yields [PlayerQuit] and then raises. *)
Lemma collator_exception_skips_fallback_witness :
  exists effs,
    json_to_event sample_parse_obj BaseEvent
      (fun _ => GYield PlayerQuit (GRaise (OtherError "key")))
      (JObj join_members) (Some "Bot1")
    = (effs ++ [Log ERROR (FailedToParse (JObj join_members))
                  (Some (OtherError "key"))],
       Ret None)
    /\ parse_calls effs = [PlayerQuit].
Proof.
  apply (collator_exception_skips_fallback sample_parse_obj BaseEvent
           (fun _ => GYield PlayerQuit (GRaise (OtherError "key")))
           join_members (Some "Bot1") [PlayerQuit] (OtherError "key")).
  - reflexivity.
  - constructor; [|constructor]. simpl. intros H. exact H.
Defined.

(** Bot1 and Bot2 arrive together and their blocks alternate. *)
Lemma distinct_identities_never_collide_witness :
  let other_ws := {| ws_id := 2; x_self_name := Some "Bot2" |} in
  let l :=
    run_loop sample_parse_obj BaseEvent sample_get_model
        sample_python adapter_spigot
      [Connect first_ws; Connect other_ws; Wake 2 (Resumed EmptyString);
       Wake 1 (Resumed EmptyString); Wake 2 (Resumed join_frame)]
      empty_loop in
  (forall id ws self_name bot,
     tasks l !! id = Some (ws, AwaitReceive self_name bot) ->
     identity sample_python adapter_spigot ws = Some self_name
     /\ connections (world l) !! self_name = Some ws
     /\ bots (world l) !! self_name = Some bot)
  /\ no_duplicate_close adapter_spigot (trace (world l)).
Proof.
  apply (distinct_identities_never_collide sample_parse_obj BaseEvent
           sample_get_model sample_python adapter_spigot
           [Connect first_ws;
            Connect {| ws_id := 2; x_self_name := Some "Bot2" |};
            Wake 2 (Resumed EmptyString); Wake 1 (Resumed EmptyString);
            Wake 2 (Resumed join_frame)]).
  intros w1 w2 n H1 H2 I1 I2. simpl in H1, H2.
  destruct H1 as [<-|[<-|[]]], H2 as [<-|[<-|[]]]; try reflexivity;
    vm_compute in I1, I2; congruence.
Defined.
